(** * anthropic-go: streaming accumulator, SSE reader, stream iterator, reordering

    A shallow embedding of the streaming core of the client library:

    - [stream.go]   the event model and [ResponseAccumulator];
    - the SSE line reader [ServerSentEventsReader.Next];
    - the stream iterator's [processEvent] (prefill injection);
    - [util.go]     [reorderMessageContent] and [addPrefill];
    - the text accessors of [Message] and the request path's
      [convertMessages].

    Go values are embedded as follows.  A Go [string] and a [[]byte] are a
    Rocq [string] (a sequence of bytes).  A Go [int] is a [Z] whose additions
    wrap at 64 bits ([int_add]).  A nilable pointer field is an [option].  A
    [Content] interface value held by the accumulator is a nilable pointer
    into an explicit store of blocks, because the accumulator keeps the same
    block both in its index map and in the response's content slice and
    mutates it in place. *)

From Stdlib Require Import ZArith Lia Ascii.
From stdpp Require Import base option list strings pretty gmap fin_maps sorting.

Open Scope Z_scope.

(** ** Go [int] *)

(** Go's [int] is taken at its width on 64-bit platforms; [+=] wraps around
    in two's complement. *)
Definition int_wrap (z : Z) : Z := (z + 2 ^ 63) `mod` 2 ^ 64 - 2 ^ 63.
Definition int_add (a b : Z) : Z := int_wrap (a + b).
Definition int_range (z : Z) : Prop := - 2 ^ 63 <= z < 2 ^ 63.

(** ** types.go: [Usage] *)

Record Usage := mkUsage {
  Usage_InputTokens : Z;
  Usage_OutputTokens : Z;
  Usage_CacheCreationInputTokens : Z;
  Usage_CacheReadInputTokens : Z;
}.

(** The four [+=] statements at the end of [AddEvent] (the same as
    [Usage.Add]). *)
Definition Usage_Add (u other : Usage) : Usage :=
  {| Usage_InputTokens := int_add (Usage_InputTokens u) (Usage_InputTokens other);
     Usage_OutputTokens := int_add (Usage_OutputTokens u) (Usage_OutputTokens other);
     Usage_CacheCreationInputTokens :=
       int_add (Usage_CacheCreationInputTokens u) (Usage_CacheCreationInputTokens other);
     Usage_CacheReadInputTokens :=
       int_add (Usage_CacheReadInputTokens u) (Usage_CacheReadInputTokens other) |}.

Definition Usage_zero : Usage := mkUsage 0 0 0 0.

(** ** response.go: content blocks *)

Definition ContentType := string.

Definition ContentTypeText : ContentType := "text".
Definition ContentTypeImage : ContentType := "image".
Definition ContentTypeDocument : ContentType := "document".
Definition ContentTypeToolUse : ContentType := "tool_use".
Definition ContentTypeToolResult : ContentType := "tool_result".
Definition ContentTypeThinking : ContentType := "thinking".
Definition ContentTypeRedactedThinking : ContentType := "redacted_thinking".
Definition ContentTypeServerToolUse : ContentType := "server_tool_use".
Definition ContentTypeWebSearchToolResult : ContentType := "web_search_tool_result".
Definition ContentTypeMCPToolUse : ContentType := "mcp_tool_use".
Definition ContentTypeMCPToolResult : ContentType := "mcp_tool_result".
Definition ContentTypeMCPListTools : ContentType := "mcp_list_tools".
Definition ContentTypeMCPApprovalRequest : ContentType := "mcp_approval_request".
Definition ContentTypeMCPApprovalResponse : ContentType := "mcp_approval_response".
Definition ContentTypeCodeExecutionToolResult : ContentType := "code_execution_tool_result".
Definition ContentTypeRefusal : ContentType := "refusal".

(** [TextContent]: the cache control and the citations are never read by the
    code embedded here; they are carried along as their JSON text. *)
Record TextContent := mkTextContent {
  TextContent_Text : string;
  TextContent_CacheControl : option string;
  TextContent_Citations : list string;
}.

Record ToolUseContent := mkToolUseContent {
  ToolUseContent_ID : string;
  ToolUseContent_Name : string;
  ToolUseContent_Input : string;      (* json.RawMessage *)
}.

Record ThinkingContent := mkThinkingContent {
  ThinkingContent_ID : string;
  ThinkingContent_Thinking : string;
  ThinkingContent_Signature : string;
}.

Record RedactedThinkingContent := mkRedactedThinkingContent {
  RedactedThinkingContent_Data : string;
}.

(** The remaining implementations of the [Content] interface.  Their fields
    are not touched by the code embedded here, so each carries its JSON text. *)
Inductive OtherContent :=
  | RefusalContent
  | ImageContent
  | DocumentContent
  | ToolResultContent
  | ServerToolUseContent
  | WebSearchToolResultContent
  | MCPToolUseContent
  | MCPToolResultContent
  | MCPListToolsContent
  | MCPApprovalRequestContent
  | MCPApprovalResponseContent
  | CodeExecutionToolResultContent.

(** A (non-nil) value of the [Content] interface: the struct behind the
    pointer, tagged by its concrete type. *)
Inductive Content :=
  | Text (c : TextContent)
  | ToolUse (c : ToolUseContent)
  | Thinking (c : ThinkingContent)
  | RedactedThinking (c : RedactedThinkingContent)
  | Other (k : OtherContent) (json : string).

(** The [Type()] method of each implementation. *)
Definition Content_Type (c : Content) : ContentType :=
  match c with
  | Text _ => ContentTypeText
  | ToolUse _ => ContentTypeToolUse
  | Thinking _ => ContentTypeThinking
  | RedactedThinking _ => ContentTypeRedactedThinking
  | Other RefusalContent _ => ContentTypeRefusal
  | Other ImageContent _ => ContentTypeImage
  | Other DocumentContent _ => ContentTypeDocument
  | Other ToolResultContent _ => ContentTypeToolResult
  | Other ServerToolUseContent _ => ContentTypeServerToolUse
  | Other WebSearchToolResultContent _ => ContentTypeWebSearchToolResult
  | Other MCPToolUseContent _ => ContentTypeMCPToolUse
  | Other MCPToolResultContent _ => ContentTypeMCPToolResult
  | Other MCPListToolsContent _ => ContentTypeMCPListTools
  | Other MCPApprovalRequestContent _ => ContentTypeMCPApprovalRequest
  | Other MCPApprovalResponseContent _ => ContentTypeMCPApprovalResponse
  | Other CodeExecutionToolResultContent _ => ContentTypeCodeExecutionToolResult
  end.

(** ** response.go: [Response]

    The struct is parametric in how a [Content] interface value is held:
    by value ([option Content], [None] being the nil interface) in an event
    decoded from the wire, by pointer ([ContentRef]) inside the accumulator. *)

Definition Role := string.
Definition User : Role := "user".
Definition Assistant : Role := "assistant".
Definition System : Role := "system".

Record Response (C : Type) := mkResponse {
  Response_ID : string;
  Response_Model : string;
  Response_Role : Role;
  Response_Content : list C;
  Response_StopReason : string;
  Response_StopSequence : option string;    (* *string *)
  Response_Type : string;
  Response_Usage : Usage;
}.
Arguments mkResponse {C}.
Arguments Response_ID {C}.
Arguments Response_Model {C}.
Arguments Response_Role {C}.
Arguments Response_Content {C}.
Arguments Response_StopReason {C}.
Arguments Response_StopSequence {C}.
Arguments Response_Type {C}.
Arguments Response_Usage {C}.

Definition Response_set_Content {C D} (r : Response C) (content : list D) : Response D :=
  mkResponse (Response_ID r) (Response_Model r) (Response_Role r) content
    (Response_StopReason r) (Response_StopSequence r) (Response_Type r) (Response_Usage r).

Definition Response_set_StopReason {C} (r : Response C) (s : string) : Response C :=
  mkResponse (Response_ID r) (Response_Model r) (Response_Role r) (Response_Content r)
    s (Response_StopSequence r) (Response_Type r) (Response_Usage r).

Definition Response_set_StopSequence {C} (r : Response C) (s : option string) : Response C :=
  mkResponse (Response_ID r) (Response_Model r) (Response_Role r) (Response_Content r)
    (Response_StopReason r) s (Response_Type r) (Response_Usage r).

Definition Response_set_Usage {C} (r : Response C) (u : Usage) : Response C :=
  mkResponse (Response_ID r) (Response_Model r) (Response_Role r) (Response_Content r)
    (Response_StopReason r) (Response_StopSequence r) (Response_Type r) u.

(** ** stream.go: events *)

Definition EventType := string.

Definition EventTypePing : EventType := "ping".
Definition EventTypeMessageStart : EventType := "message_start".
Definition EventTypeMessageDelta : EventType := "message_delta".
Definition EventTypeMessageStop : EventType := "message_stop".
Definition EventTypeContentBlockStart : EventType := "content_block_start".
Definition EventTypeContentBlockDelta : EventType := "content_block_delta".
Definition EventTypeContentBlockStop : EventType := "content_block_stop".

Record EventContentBlock := mkEventContentBlock {
  EventContentBlock_Type : ContentType;
  EventContentBlock_Text : string;
  EventContentBlock_ID : string;
  EventContentBlock_Name : string;
  EventContentBlock_Input : string;
  EventContentBlock_Thinking : string;
  EventContentBlock_Signature : string;
}.

Definition EventDeltaType := string.

Definition EventDeltaTypeText : EventDeltaType := "text_delta".
Definition EventDeltaTypeInputJSON : EventDeltaType := "input_json_delta".
Definition EventDeltaTypeThinking : EventDeltaType := "thinking_delta".
Definition EventDeltaTypeSignature : EventDeltaType := "signature_delta".
Definition EventDeltaTypeCitations : EventDeltaType := "citations_delta".

Record EventDelta := mkEventDelta {
  EventDelta_Type : EventDeltaType;
  EventDelta_Text : string;
  EventDelta_Index : Z;
  EventDelta_StopReason : string;
  EventDelta_StopSequence : string;
  EventDelta_PartialJSON : string;
  EventDelta_Thinking : string;
  EventDelta_Signature : string;
}.

Record Event := mkEvent {
  Event_Type : EventType;
  Event_Index : option Z;                              (* *int *)
  Event_Message : option (Response (option Content));  (* *Response *)
  Event_ContentBlock : option EventContentBlock;       (* *EventContentBlock *)
  Event_Delta : option EventDelta;                     (* *EventDelta *)
  Event_Usage : option Usage;                          (* *Usage *)
}.

(** ** stream.go: [ResponseAccumulator] *)

(** A [Content] interface value inside the accumulator: [None] is the nil
    interface, [Some p] a pointer to the block at position [p] of the store. *)
Definition ContentRef := option nat.

Record ResponseAccumulator := mkResponseAccumulator {
  store : list Content;                 (* the blocks the pointers point to *)
  response : option (Response ContentRef);      (* *Response *)
  contentBlocks : gmap Z ContentRef;    (* map[int]Content *)
  complete : bool;
}.

(** [&T{...}]: a fresh block at the end of the store. *)
Definition new (st : list Content) (c : Content) : list Content * ContentRef :=
  (st ++ [c], Some (length st)).

(** What a [Content] interface value denotes in a store. *)
Definition deref (st : list Content) (p : ContentRef) : option Content :=
  p ≫= (st !!.).

Definition NewResponseAccumulator : ResponseAccumulator :=
  {| store := []; response := None; contentBlocks := ∅; complete := false |}.

(** What an [AddEvent] call does to its caller: it returns an [error]
    ([None] is nil) or it panics. *)
Definition error := option string.
Inductive outcome :=
  | Return (err : error)
  | Panic.

Definition errors_New (msg : string) : error := Some msg.

Definition set_store (r : ResponseAccumulator) (st : list Content) : ResponseAccumulator :=
  mkResponseAccumulator st (response r) (contentBlocks r) (complete r).
Definition set_response (r : ResponseAccumulator) (resp : option (Response ContentRef))
    : ResponseAccumulator :=
  mkResponseAccumulator (store r) resp (contentBlocks r) (complete r).
Definition set_contentBlocks (r : ResponseAccumulator) (m : gmap Z ContentRef)
    : ResponseAccumulator :=
  mkResponseAccumulator (store r) (response r) m (complete r).
Definition set_complete (r : ResponseAccumulator) (b : bool) : ResponseAccumulator :=
  mkResponseAccumulator (store r) (response r) (contentBlocks r) b.

(** [sort.Ints]. *)
Definition sort_Ints (l : list Z) : list Z := merge_sort Z.le l.

(** [r.contentBlocks[index]]: a missing key reads as the nil interface. *)
Definition block_at (m : gmap Z ContentRef) (index : Z) : ContentRef :=
  default None (m !! index).

(** [finalizeContent]: the keys of the map are collected (in the map's
    iteration order), sorted, and the blocks are read back in that order. *)
Definition finalizeContent (r : ResponseAccumulator) : ResponseAccumulator :=
  match response r with
  | None => r
  | Some resp =>
      if decide (size (contentBlocks r) = 0%nat) then r
      else
        let indices := sort_Ints (map_to_list (contentBlocks r)).*1 in
        let content := (block_at (contentBlocks r)) <$> indices in
        set_response r (Some (Response_set_Content resp content))
  end.

(** [r.response = event.Message]: the snapshot's blocks become blocks of the
    store, the response holds pointers to them. *)
Fixpoint adopt (st : list Content) (cs : list (option Content))
    : list Content * list ContentRef :=
  match cs with
  | [] => (st, [])
  | None :: cs' => let '(st', ps) := adopt st cs' in (st', None :: ps)
  | Some c :: cs' =>
      let '(st1, p) := new st c in
      let '(st', ps) := adopt st1 cs' in (st', p :: ps)
  end.

(** Each case of the [switch event.Type] yields the accumulator it leaves
    behind and [Some err] when it executes [return err], [None] when control
    leaves the switch and reaches the usage update. *)
Definition caseMessageStart (r : ResponseAccumulator) (event : Event)
    : ResponseAccumulator * option error :=
  match Event_Message event with
  | None => (r, Some (errors_New "invalid message start event"))
  | Some m =>
      let '(st, ps) := adopt (store r) (Response_Content m) in
      (set_response (set_store r st) (Some (Response_set_Content m ps)), Some None)
  end.

(** [&T{...}] or the nil interface: where the value of a new interface
    variable lives. *)
Definition alloc (st : list Content) (block : option Content) : list Content * ContentRef :=
  match block with
  | Some c => new st c
  | None => (st, None)
  end.

(** [*p = c] through an interface value known to hold a pointer. *)
Definition assign (st : list Content) (content : ContentRef) (block : option Content)
    : list Content :=
  match content, block with
  | Some p, Some c => <[p := c]> st
  | _, _ => st
  end.

(** The inner [switch event.ContentBlock.Type]: the struct literal each case
    builds.  There is no case for the other types: [content] stays the nil
    interface. *)
Definition startContent (cb : EventContentBlock) : option Content :=
  if decide (EventContentBlock_Type cb = ContentTypeText) then
    Some (Text (mkTextContent (EventContentBlock_Text cb) None []))
  else if decide (EventContentBlock_Type cb = ContentTypeToolUse) then
    Some (ToolUse (mkToolUseContent (EventContentBlock_ID cb) (EventContentBlock_Name cb) ""))
  else if decide (EventContentBlock_Type cb = ContentTypeThinking) then
    Some (Thinking (mkThinkingContent ""
                      (EventContentBlock_Thinking cb) (EventContentBlock_Signature cb)))
  else if decide (EventContentBlock_Type cb = ContentTypeRedactedThinking) then
    Some (RedactedThinking (mkRedactedThinkingContent ""))
  else None.

Definition caseContentBlockStart (r : ResponseAccumulator) (event : Event)
    : ResponseAccumulator * option error :=
  match response r with
  | None => (r, Some (errors_New "no message start event found"))
  | Some _ =>
      match Event_ContentBlock event with
      | None => (r, Some (errors_New "no content block found in event"))
      | Some cb =>
          let '(st, content) := alloc (store r) (startContent cb) in
          let index :=
            match Event_Index event with
            | Some i => i
            | None => Z.of_nat (size (contentBlocks r))     (* nextIndex *)
            end in
          (set_contentBlocks (set_store r st) (<[index := content]> (contentBlocks r)), None)
      end
  end.

(** [textContent.Text += text] and its two siblings. *)
Definition TextContent_append (c : TextContent) (text : string) : TextContent :=
  mkTextContent (TextContent_Text c +:+ text) (TextContent_CacheControl c)
    (TextContent_Citations c).

Definition ToolUseContent_append (c : ToolUseContent) (json : string) : ToolUseContent :=
  mkToolUseContent (ToolUseContent_ID c) (ToolUseContent_Name c)
    (ToolUseContent_Input c +:+ json).

Definition ThinkingContent_append (c : ThinkingContent) (thinking signature : string)
    : ThinkingContent :=
  mkThinkingContent (ThinkingContent_ID c) (ThinkingContent_Thinking c +:+ thinking)
    (ThinkingContent_Signature c +:+ signature).

(** The inner [switch event.Delta.Type], on the block [content] points to
    ([None] when [content] is the nil interface).  Each case is a type
    assertion to one pointer type: it yields the updated struct, or the
    case's error message when the block is of another type.  A delta type without a
    case (citations_delta, or one the library does not know) leaves the
    switch with the block as it is. *)
Definition mergeDelta (block : option Content) (d : EventDelta) : option Content + string :=
  if decide (EventDelta_Type d = EventDeltaTypeText) then
    match block with
    | Some (Text c) => inl (Some (Text (TextContent_append c (EventDelta_Text d))))
    | _ => inr "in-progress block is not a text content"
    end
  else if decide (EventDelta_Type d = EventDeltaTypeInputJSON) then
    match block with
    | Some (ToolUse c) => inl (Some (ToolUse (ToolUseContent_append c (EventDelta_PartialJSON d))))
    | _ => inr "in-progress block is not a tool use content"
    end
  else if decide (EventDelta_Type d = EventDeltaTypeThinking
                  ∨ EventDelta_Type d = EventDeltaTypeSignature) then
    match block with
    | Some (Thinking c) =>
        inl (Some (Thinking (ThinkingContent_append c (EventDelta_Thinking d)
                               (EventDelta_Signature d))))
    | _ => inr "in-progress block is not a thinking content"
    end
  else inl block.

(** The struct is updated in place, through the pointer held in the map. *)
Definition caseContentBlockDelta (r : ResponseAccumulator) (event : Event)
    : ResponseAccumulator * option error :=
  match response r, Event_Delta event, Event_Index event with
  | Some _, Some d, Some index =>
      match contentBlocks r !! index with
      | None => (r, Some (errors_New "content block not found for index"))
      | Some content =>
          match mergeDelta (deref (store r) content) d with
          | inr msg => (r, Some (errors_New msg))
          | inl block => (set_store r (assign (store r) content block), None)
          end
      end
  | _, _, _ => (r, Some (errors_New "invalid content block delta event"))
  end.

Definition caseMessageDelta (r : ResponseAccumulator) (event : Event)
    : ResponseAccumulator * option error :=
  match response r, Event_Delta event with
  | Some resp, Some d =>
      let resp1 :=
        if decide (EventDelta_StopReason d ≠ "")
        then Response_set_StopReason resp (EventDelta_StopReason d) else resp in
      let resp2 :=
        if decide (EventDelta_StopSequence d ≠ "")
        then Response_set_StopSequence resp1 (Some (EventDelta_StopSequence d)) else resp1 in
      (set_response r (Some resp2), None)
  | _, _ => (r, Some (errors_New "invalid message delta event"))
  end.

Definition caseMessageStop (r : ResponseAccumulator) (event : Event)
    : ResponseAccumulator * option error :=
  (finalizeContent (set_complete r true), None).

(** [switch event.Type]: ping, content_block_stop and any other type have no
    case. *)
Definition dispatch (r : ResponseAccumulator) (event : Event)
    : ResponseAccumulator * option error :=
  if decide (Event_Type event = EventTypeMessageStart) then caseMessageStart r event
  else if decide (Event_Type event = EventTypeContentBlockStart) then caseContentBlockStart r event
  else if decide (Event_Type event = EventTypeContentBlockDelta) then caseContentBlockDelta r event
  else if decide (Event_Type event = EventTypeMessageDelta) then caseMessageDelta r event
  else if decide (Event_Type event = EventTypeMessageStop) then caseMessageStop r event
  else (r, None).

(** The statements after the switch: [r.response.Usage.X += event.Usage.X]
    dereferences [r.response], which panics when it is nil. *)
Definition updateUsage (r : ResponseAccumulator) (event : Event)
    : ResponseAccumulator * outcome :=
  match Event_Usage event with
  | None => (r, Return None)
  | Some u =>
      match response r with
      | None => (r, Panic)
      | Some resp =>
          (set_response r (Some (Response_set_Usage resp (Usage_Add (Response_Usage resp) u))),
           Return None)
      end
  end.

Definition AddEvent (r : ResponseAccumulator) (event : Event) : ResponseAccumulator * outcome :=
  match dispatch r event with
  | (r', Some err) => (r', Return err)
  | (r', None) => updateUsage r' event
  end.

Definition IsComplete (r : ResponseAccumulator) : bool := complete r.

(** The [Response()] accessor finalizes when blocks exist and the response's
    content is still empty. *)
Definition ResponseAccumulator_Response (r : ResponseAccumulator)
    : ResponseAccumulator * option (Response ContentRef) :=
  let r' :=
    match response r with
    | Some resp =>
        if decide (size (contentBlocks r) ≠ 0%nat ∧ length (Response_Content resp) = 0%nat)
        then finalizeContent r else r
    | None => r
    end in
  (r', response r').

(** The [Usage()] accessor dereferences [r.response]: [None] is the panic. *)
Definition ResponseAccumulator_Usage (r : ResponseAccumulator) : option Usage :=
  Response_Usage <$> response r.

(** A caller feeding a list of events, one [AddEvent] call each.  An error is
    returned to the caller, who goes on; a panic ends the run. *)
Fixpoint AddEvents (r : ResponseAccumulator) (events : list Event)
    : ResponseAccumulator * list outcome :=
  match events with
  | [] => (r, [])
  | event :: rest =>
      match AddEvent r event with
      | (r', Panic) => (r', [Panic])
      | (r', Return err) =>
          let '(r'', outs) := AddEvents r' rest in (r'', Return err :: outs)
      end
  end.

(** The response's content as a caller reads it: every pointer followed
    into the store. *)
Definition final_content (r : ResponseAccumulator) : option (list (option Content)) :=
  (λ resp, deref (store r) <$> Response_Content resp) <$> response r.


(** ** Go's [bytes] and [strings] helpers *)

(** [strings.HasPrefix] / [bytes.HasPrefix]. *)
Definition HasPrefix (s prefix : string) : bool := String.prefix prefix s.

(** [bytes.TrimPrefix]: [s] without the leading [prefix], or [s] itself when
    it does not start with [prefix]. *)
Fixpoint stripPrefix (prefix s : string) : option string :=
  match prefix, s with
  | EmptyString, _ => Some s
  | String a prefix', String b s' => if decide (a = b) then stripPrefix prefix' s' else None
  | String _ _, EmptyString => None
  end.

Definition TrimPrefix (s prefix : string) : string := default s (stripPrefix prefix s).

(** [strings.Contains]: [substr] occurs somewhere in [s]. *)
Fixpoint Contains (s substr : string) : bool :=
  HasPrefix s substr ||
  match s with
  | EmptyString => false
  | String _ s' => Contains s' substr
  end.

(** [bytes.TrimSpace] restricted to input made of ASCII bytes, where it
    strips the bytes of the [asciiSpace] table (tab, line feed, vertical
    tab, form feed, carriage return, space) from both ends. *)
Fixpoint trimLeftASCII (s : string) : string :=
  match s with
  | EmptyString => EmptyString
  | String a s' => if Ascii.is_space a then trimLeftASCII s' else s
  end.

Definition TrimSpaceASCII (s : string) : string :=
  String.rev (trimLeftASCII (String.rev (trimLeftASCII s))).

(** ** The SSE reader: [ServerSentEventsReader]

    The reader is generic in the event type [T]; [json.Unmarshal] into a [T]
    and Go's [bytes.TrimSpace] are library functions taken as given.  The
    buffered stream is described by what [reader.ReadBytes('\n')] will
    return: the complete lines still to come, each with its line feed, and
    then forever the condition the stream ends with, [io.EOF] or a read
    error.  (Bytes after the last line feed come back together with the
    [io.EOF], and [Next] drops them.) *)

Record ServerSentEventsReader := mkServerSentEventsReader {
  reader_lines : list string;
  reader_end : option string;              (* [None]: io.EOF *)
  reader_err : error;                      (* s.err *)
  sseCallback : option (string → error);
}.

(** [Err()]. *)
Definition ServerSentEventsReader_Err (s : ServerSentEventsReader) : error := reader_err s.

(** The complete lines of a byte stream, as [ReadBytes] cuts them. *)
Fixpoint complete_lines (line : string) (stream : string) : list string :=
  match stream with
  | EmptyString => []
  | String a stream' =>
      if decide (a = "010"%char)
      then String.rev (String a line) :: complete_lines EmptyString stream'
      else complete_lines (String a line) stream'
  end.

(** [NewServerSentEventsReader] on a stream that delivers [stream] and then
    ends with [ending]. *)
Definition NewServerSentEventsReader (stream : string) (ending : option string)
    : ServerSentEventsReader :=
  mkServerSentEventsReader (complete_lines EmptyString stream) ending None None.

Section ServerSentEventsReader.
Context {T : Type}.
Variable zero : T.                           (* var zero T *)
Variable Unmarshal : string → T + string.    (* json.Unmarshal: the value or the error *)
Variable TrimSpace : string → string.        (* bytes.TrimSpace *)

(** The body of the [for] loop of [Next], by recursion on the lines still
    to come. *)
Fixpoint NextLoop (lines : list string) (ending : option string) (err : error)
    (callback : option (string → error)) : (T * bool) * ServerSentEventsReader :=
  match lines with
  | [] =>
      match ending with
      | Some e => ((zero, false), mkServerSentEventsReader [] ending (Some e) callback)
      | None => ((zero, false), mkServerSentEventsReader [] ending err callback)
      end
  | line :: rest =>
      match callback ≫= (λ f, f line) with
      | Some e => ((zero, false), mkServerSentEventsReader rest ending (Some e) callback)
      | None =>
          if decide (String.length (TrimSpace line) = 0%nat)
          then NextLoop rest ending err callback
          else
            let line := TrimSpace (TrimPrefix line "data: ") in
            if decide (line = "[DONE]")
            then ((zero, false), mkServerSentEventsReader rest ending err callback)
            else if negb (HasPrefix line "{")
            then NextLoop rest ending err callback
            else
              match Unmarshal line with
              | inr e =>
                  ((zero, false), mkServerSentEventsReader rest ending (Some e) callback)
              | inl event =>
                  ((event, true), mkServerSentEventsReader rest ending err callback)
              end
      end
  end.

Definition ServerSentEventsReader_Next (s : ServerSentEventsReader)
    : (T * bool) * ServerSentEventsReader :=
  NextLoop (reader_lines s) (reader_end s) (reader_err s) (sseCallback s).

(** How [Next] classifies a line. *)
Definition payload (line : string) : string := TrimSpace (TrimPrefix line "data: ").

Definition blank (line : string) : Prop := String.length (TrimSpace line) = 0%nat.

(** Protocol noise: a blank line, or a line whose payload neither is the
    terminator nor starts with an opening brace. *)
Definition noise (line : string) : Prop :=
  blank line ∨ (payload line ≠ "[DONE]" ∧ HasPrefix (payload line) "{" = false).

Definition terminator (line : string) : Prop :=
  ¬ blank line ∧ payload line = "[DONE]".

Definition json_line (line : string) : Prop :=
  ¬ blank line ∧ payload line ≠ "[DONE]" ∧ HasPrefix (payload line) "{" = true.

(** The callback, if there is one, lets the line through. *)
Definition let_through (callback : option (string → error)) (line : string) : Prop :=
  callback ≫= (λ f, f line) = None.
End ServerSentEventsReader.

(** ** The stream iterator: [StreamIterator]

    The iterator's reader is an SSE reader of events.  Up to the first time
    the reader's [Next] returns false, all the iterator sees of it is the
    events it yields and the error it then reports; the reader is described
    by these, and the iterator from its creation to the first [Next] that
    returns false. *)

Record StreamIterator := mkStreamIterator {
  reader_events : list Event;      (* what s.reader.Next() will yield *)
  reader_final : error;            (* s.reader.Err() once they are exhausted *)
  body_closed : bool;              (* closeOnce has fired *)
  iterator_err : error;            (* s.err *)
  currentEvent : option Event;
  prefill : string;
  prefillClosingTag : string;
}.

Definition set_prefill (s : StreamIterator) (p : string) : StreamIterator :=
  mkStreamIterator (reader_events s) (reader_final s) (body_closed s) (iterator_err s)
    (currentEvent s) p (prefillClosingTag s).

(** [event.ContentBlock.Text = s.prefill + event.ContentBlock.Text]. *)
Definition with_prefill (p : string) (event : Event) : Event :=
  match Event_ContentBlock event with
  | Some cb =>
      mkEvent (Event_Type event) (Event_Index event) (Event_Message event)
        (Some (mkEventContentBlock (EventContentBlock_Type cb)
                 (p +:+ EventContentBlock_Text cb)
                 (EventContentBlock_ID cb) (EventContentBlock_Name cb)
                 (EventContentBlock_Input cb) (EventContentBlock_Thinking cb)
                 (EventContentBlock_Signature cb)))
        (Event_Delta event) (Event_Usage event)
  | None => event
  end.

(** [processEvent]: [None] is the nil event. *)
Definition processEvent (s : StreamIterator) (event : Event) : StreamIterator * option Event :=
  if decide (Event_Type event = "") then (s, None)
  else
    if decide (prefill s ≠ "" ∧ Event_Type event = EventTypeContentBlockStart) then
      match Event_ContentBlock event with
      | Some cb =>
          if decide (EventContentBlock_Type cb = ContentTypeText) then
            if bool_decide (prefillClosingTag s = "")
               || Contains (EventContentBlock_Text cb) (prefillClosingTag s)
            then (set_prefill s "", Some (with_prefill (prefill s) event))
            else (s, Some event)
          else (s, Some event)
      | None => (s, Some event)
      end
    else (s, Some event).

(** [Close]: the body is closed by the first call only. *)
Definition StreamIterator_Close (s : StreamIterator) : StreamIterator :=
  mkStreamIterator (reader_events s) (reader_final s) true (iterator_err s)
    (currentEvent s) (prefill s) (prefillClosingTag s).

(** [Next]: the loop pulls events from the reader until one is surfaced. *)
Fixpoint StreamIterator_NextLoop (events : list Event) (s : StreamIterator)
    : bool * StreamIterator :=
  match events with
  | [] =>
      (false,
       StreamIterator_Close
         (mkStreamIterator [] (reader_final s) (body_closed s) (reader_final s)
            (currentEvent s) (prefill s) (prefillClosingTag s)))
  | event :: rest =>
      let s1 := mkStreamIterator rest (reader_final s) (body_closed s) (iterator_err s)
                  (currentEvent s) (prefill s) (prefillClosingTag s) in
      match processEvent s1 event with
      | (s2, Some processedEvent) =>
          (true,
           mkStreamIterator (reader_events s2) (reader_final s2) (body_closed s2)
             (iterator_err s2) (Some processedEvent) (prefill s2) (prefillClosingTag s2))
      | (s2, None) => StreamIterator_NextLoop rest s2
      end
  end.

Definition StreamIterator_Next (s : StreamIterator) : bool * StreamIterator :=
  StreamIterator_NextLoop (reader_events s) s.

(** The events a consumer sees: [Next] called until it returns false, the
    current event read after every successful call. *)
Fixpoint pull (fuel : nat) (s : StreamIterator) : list Event :=
  match fuel with
  | O => []
  | S fuel' =>
      match StreamIterator_Next s with
      | (true, s') => from_option (λ e, [e]) [] (currentEvent s') ++ pull fuel' s'
      | (false, _) => []
      end
  end.

(** ** util.go: [reorderMessageContent]

    The function dereferences every message and calls [Type()] on every
    block without a test, so both are taken to be non-nil. *)

Record Message := mkMessage {
  Message_ID : string;
  Message_Role : Role;
  Message_Content : list Content;
}.

(** The inner loop: the two slices grown by [append]. *)
Definition separate (content : list Content) : list Content * list Content :=
  foldl (λ '(toolUseBlocks, otherBlocks) block,
           if decide (Content_Type block = ContentTypeToolUse)
           then (toolUseBlocks ++ [block], otherBlocks)
           else (toolUseBlocks, otherBlocks ++ [block]))
        ([], []) content.

(** The body of the outer loop, for one message. *)
Definition reorderMessage (msg : Message) : Message :=
  if decide (Message_Role msg ≠ Assistant ∨ (length (Message_Content msg) < 2)%nat) then msg
  else
    let '(toolUseBlocks, otherBlocks) := separate (Message_Content msg) in
    if decide ((0 < length toolUseBlocks)%nat ∧ (0 < length otherBlocks)%nat)
    then mkMessage (Message_ID msg) (Message_Role msg) (otherBlocks ++ toolUseBlocks)
    else msg.

(** The messages are updated in place, one after the other. *)
Definition reorderMessageContent (messages : list Message) : list Message :=
  reorderMessage <$> messages.

(** ** Auxiliary notions used in the statements *)

(** An event type without a case leaves the switch at once. *)
Definition unhandled (ty : EventType) : Prop :=
  ty ≠ EventTypeMessageStart ∧ ty ≠ EventTypeContentBlockStart ∧
  ty ≠ EventTypeContentBlockDelta ∧ ty ≠ EventTypeMessageDelta ∧
  ty ≠ EventTypeMessageStop.

(** The usage a response holds once an event's optional payload is added. *)
Definition add_usage (u : Usage) (o : option Usage) : Usage :=
  match o with Some u' => Usage_Add u u' | None => u end.


(** ** Sample values *)

Definition bare_event (ty : EventType) : Event := mkEvent ty None None None None None.

Definition usage_event (ty : EventType) (u : Usage) : Event :=
  mkEvent ty None None None None (Some u).

Definition start_event (index : Z) (ty : ContentType) (text : string) : Event :=
  mkEvent EventTypeContentBlockStart (Some index) None
    (Some (mkEventContentBlock ty text "" "" "" "" "")) None None.

(** A delta event with [text] in each of its payload fields. *)
Definition delta_event (index : Z) (ty : EventDeltaType) (text : string) : Event :=
  mkEvent EventTypeContentBlockDelta (Some index) None None
    (Some (mkEventDelta ty text 0 "" "" text text text)) None.

Definition stop_delta_event (reason sequence : string) : Event :=
  mkEvent EventTypeMessageDelta None None None
    (Some (mkEventDelta "" "" 0 reason sequence "" "" "")) None.

Definition sample_snapshot : Response (option Content) :=
  mkResponse "m1" "" Assistant [] "" None "message" Usage_zero.

Definition message_start_event (m : Response (option Content)) (u : option Usage) : Event :=
  mkEvent EventTypeMessageStart None (Some m) None None u.

(** The snapshot and the two events of the accumulator's unit tests. *)
Definition test_snapshot (content : list (option Content)) : Response (option Content) :=
  mkResponse "msg_123" "" Assistant content "" None "" Usage_zero.

(** The accumulator after [message_start] with the sample snapshot. *)
Definition started_accumulator : ResponseAccumulator :=
  (AddEvent NewResponseAccumulator (message_start_event sample_snapshot None)).1.

(** The text a delta event carries. *)
Definition delta_text (e : Event) : string :=
  from_option EventDelta_Text "" (Event_Delta e).

Definition concat_strings (l : list string) : string := foldr String.append "" l.

(** A [content_block_delta] event of kind [text_delta] addressed to [index]. *)
Definition text_delta_for (index : Z) (e : Event) : Prop :=
  Event_Type e = EventTypeContentBlockDelta ∧
  Event_Index e = Some index ∧
  ∃ d, Event_Delta e = Some d ∧ EventDelta_Type d = EventDeltaTypeText.

(** The accumulator after [message_start] and the start of a text block
    seeded with "Hello" at index 0. *)
Definition hello_accumulator : ResponseAccumulator :=
  (AddEvent started_accumulator (start_event 0 ContentTypeText "Hello")).1.

(** The delta kinds whose case in [mergeDelta] asserts another block type
    than text. *)
Definition other_block_delta (ty : EventDeltaType) : Prop :=
  ty = EventDeltaTypeInputJSON ∨ ty = EventDeltaTypeThinking ∨ ty = EventDeltaTypeSignature.

(** The delta kinds [mergeDelta] has a case for. *)
Definition handled_delta (ty : EventDeltaType) : Prop :=
  ty = EventDeltaTypeText ∨ other_block_delta ty.

(** Component-wise sums of usage counters, as integers, and a usage whose
    counters are brought back into the range of [int]. *)
Definition Usage_plus (u v : Usage) : Usage :=
  mkUsage (Usage_InputTokens u + Usage_InputTokens v)
          (Usage_OutputTokens u + Usage_OutputTokens v)
          (Usage_CacheCreationInputTokens u + Usage_CacheCreationInputTokens v)
          (Usage_CacheReadInputTokens u + Usage_CacheReadInputTokens v).

Definition usage_sum (us : list Usage) : Usage := foldr Usage_plus Usage_zero us.

Definition Usage_wrap (u : Usage) : Usage :=
  mkUsage (int_wrap (Usage_InputTokens u)) (int_wrap (Usage_OutputTokens u))
          (int_wrap (Usage_CacheCreationInputTokens u))
          (int_wrap (Usage_CacheReadInputTokens u)).

Definition Usage_in_range (u : Usage) : Prop :=
  int_range (Usage_InputTokens u) ∧ int_range (Usage_OutputTokens u) ∧
  int_range (Usage_CacheCreationInputTokens u) ∧ int_range (Usage_CacheReadInputTokens u).

(** Four events of four kinds, each with usage counters. *)
Definition sample_usages : list Usage :=
  [mkUsage 1 2 3 4; mkUsage 10 20 30 40; mkUsage 100 200 300 400; mkUsage 1000 2000 3000 4000].

Definition sample_usage_events : list Event :=
  [usage_event EventTypePing (mkUsage 1 2 3 4);
   usage_event EventTypeContentBlockStop (mkUsage 10 20 30 40);
   mkEvent EventTypeMessageDelta None None None
     (Some (mkEventDelta "" "" 0 "end_turn" "" "" "" "")) (Some (mkUsage 100 200 300 400));
   usage_event EventTypeMessageStop (mkUsage 1000 2000 3000 4000)].

(** ** Notions for the ordering of the final content *)

(** A [content_block_start] event with an explicit index and a payload. *)
Definition block_start (e : Event) : Prop :=
  Event_Type e = EventTypeContentBlockStart ∧
  is_Some (Event_Index e) ∧ is_Some (Event_ContentBlock e).

Definition block_delta (e : Event) : Prop :=
  Event_Type e = EventTypeContentBlockDelta.

(** The indices the start events name. *)
Definition started_indices (starts : list Event) : list Z := omap Event_Index starts.

(** The block started at index [k]: the one built from the payload of the
    last start event for [k]. *)
Definition started_block (starts : list Event) (k : Z) : option Content :=
  (last (filter (λ e, Event_Index e = Some k) starts) ≫= Event_ContentBlock) ≫= startContent.

(** The block after one delta is merged into it; a rejected delta leaves it
    as it is. *)
Definition merge (d : EventDelta) (block : option Content) : option Content :=
  match mergeDelta block d with
  | inl block' => block'
  | inr _ => block
  end.

(** The deltas addressed to index [k], in order of arrival. *)
Definition deltas_for (deltas : list Event) (k : Z) : list EventDelta :=
  omap (λ e, if decide (Event_Index e = Some k) then Event_Delta e else None) deltas.

(** The block for index [k] once every delta addressed to it is merged. *)
Definition block_of (starts deltas : list Event) (k : Z) : option Content :=
  foldl (λ block d, merge d block) (started_block starts k) (deltas_for deltas k).

(** The blocks of the map, by value. *)
Definition blocks (r : ResponseAccumulator) : gmap Z (option Content) :=
  deref (store r) <$> contentBlocks r.

(** Pointers held in the map point into the store, and no two keys share a
    block. *)
Definition well_formed (r : ResponseAccumulator) : Prop :=
  (∀ k p, contentBlocks r !! k = Some (Some p) → (p < length (store r))%nat) ∧
  (∀ k1 k2 p, contentBlocks r !! k1 = Some (Some p) →
              contentBlocks r !! k2 = Some (Some p) → k1 = k2).

(** What a start event and a delta event do to the blocks of the map. *)
Definition start_step (m : gmap Z (option Content)) (e : Event) : gmap Z (option Content) :=
  match Event_Index e with
  | Some i => <[i := Event_ContentBlock e ≫= startContent]> m
  | None => m
  end.

Definition delta_step (m : gmap Z (option Content)) (e : Event) : gmap Z (option Content) :=
  match Event_Index e, Event_Delta e with
  | Some i, Some d => alter (merge d) i m
  | _, _ => m
  end.

(** A stream whose blocks start out of order and leave gaps: index 5 starts
    before index 2, and indices 0, 1, 3 and 4 are never used. *)
Definition sample_starts : list Event :=
  [start_event 5 ContentTypeText "world"; start_event 2 ContentTypeText "Hello"].

Definition sample_deltas : list Event :=
  [delta_event 2 EventDeltaTypeText ","; delta_event 5 EventDeltaTypeText "!";
   delta_event 2 EventDeltaTypeInputJSON "{"; delta_event 2 EventDeltaTypeText " "].

Definition sample_stream : list Event :=
  message_start_event sample_snapshot None ::
  sample_starts ++ sample_deltas ++ [bare_event EventTypeMessageStop].

(** The events the iterator surfaces out of the events its reader yields:
    [processEvent] applied to each in turn, the nil results dropped. *)
Fixpoint surface (s : StreamIterator) (events : list Event) : list Event :=
  match events with
  | [] => []
  | event :: rest =>
      match processEvent s event with
      | (s', Some processedEvent) => processedEvent :: surface s' rest
      | (s', None) => surface s' rest
      end
  end.

(** The events that are not swallowed: those with a type. *)
Definition visible (events : list Event) : list Event :=
  filter (λ e, Event_Type e ≠ "") events.

(** A [content_block_start] event for a text block. *)
Definition text_start (e : Event) : Prop :=
  Event_Type e = EventTypeContentBlockStart ∧
  ∃ cb, Event_ContentBlock e = Some cb ∧ EventContentBlock_Type cb = ContentTypeText.

(** The text fragment an event carries in its content-block payload. *)
Definition fragment (e : Event) : string :=
  from_option EventContentBlock_Text "" (Event_ContentBlock e).

(** A sample decoder: the empty object decodes, anything else is an error. *)
Definition sample_Unmarshal (line : string) : Event + string :=
  if decide (line = "{}") then inl (bare_event "") else inr "unexpected end of JSON input".

Definition sample_noise : list string :=
  [String "010" ""; "event: ping" +:+ String "010" ""; ": keep-alive" +:+ String "010" "";
   "data: " +:+ String "010" ""].

Definition sample_reader (line : string) (rest : list string) : ServerSentEventsReader :=
  mkServerSentEventsReader (sample_noise ++ line :: rest) None None None.

(** The events [processEvent] injects a pending prefill into: the start of a
    text block, whose text contains the closing tag when one is configured. *)
Definition injectable (tag : string) (e : Event) : Prop :=
  text_start e ∧ (tag = "" ∨ Contains (fragment e) tag = true).

Definition sample_iterator (tag : string) (events : list Event) : StreamIterator :=
  mkStreamIterator events None false None None "PREFIX: " tag.

Definition sample_events_untagged : list Event :=
  [bare_event ""; bare_event EventTypeMessageStart;
   start_event 0 ContentTypeText "Hello"; bare_event EventTypePing;
   start_event 1 ContentTypeText "again"].

Definition sample_events_tagged : list Event :=
  [start_event 0 ContentTypeText "abc"; start_event 1 ContentTypeText "x</r>y";
   start_event 2 ContentTypeText "z</r>"].

(** A content list with both a tool-use block and a block of another type. *)
Definition mixed (content : list Content) : Prop :=
  (∃ block, block ∈ content ∧ Content_Type block = ContentTypeToolUse) ∧
  (∃ block, block ∈ content ∧ Content_Type block ≠ ContentTypeToolUse).

Definition sample_text (text : string) : Content := Text (mkTextContent text None []).
Definition sample_tool (id : string) : Content := ToolUse (mkToolUseContent id "test_tool" "").

Definition sample_messages : list Message :=
  [mkMessage "" User [sample_tool "tool0"; sample_text "Hello"];
   mkMessage "" Assistant
     [sample_tool "tool1"; sample_text "Here is the result:";
      sample_tool "tool2"; sample_text "Additional text"]].

(** * Further notions: the rest of the accumulator's behaviour *)

(** The accumulators a program can hold: what [AddEvent] calls make of a
    fresh one. *)
Definition reachable (r : ResponseAccumulator) : Prop :=
  ∃ events, (AddEvents NewResponseAccumulator events).1 = r.

Definition is_message_stop (e : Event) : bool :=
  bool_decide (Event_Type e = EventTypeMessageStop).

(** The event types whose case tests [r.response] before anything else. *)
Definition guarded (ty : EventType) : Prop :=
  ty = EventTypeContentBlockStart ∨ ty = EventTypeContentBlockDelta ∨
  ty = EventTypeMessageDelta.

(** The key a [content_block_start] event stores its block under. *)
Definition start_index (r : ResponseAccumulator) (e : Event) : Z :=
  from_option id (Z.of_nat (size (contentBlocks r))) (Event_Index e).

(** A [content_block_start] event with a payload and no index. *)
Definition unindexed_start (e : Event) : Prop :=
  Event_Type e = EventTypeContentBlockStart ∧
  Event_Index e = None ∧ is_Some (Event_ContentBlock e).

(** The block a start event builds. *)
Definition start_block (e : Event) : option Content :=
  Event_ContentBlock e ≫= startContent.

(** The block types [startContent] has a case for. *)
Definition known_block_type (ty : ContentType) : Prop :=
  ty = ContentTypeText ∨ ty = ContentTypeToolUse ∨
  ty = ContentTypeThinking ∨ ty = ContentTypeRedactedThinking.

Definition sample_unindexed_starts : list Event :=
  [mkEvent EventTypeContentBlockStart None None
     (Some (mkEventContentBlock ContentTypeText "first" "" "" "" "" "")) None None;
   mkEvent EventTypeContentBlockStart None None
     (Some (mkEventContentBlock ContentTypeToolUse "" "toolu_1" "get_weather" "" "" "")) None None;
   mkEvent EventTypeContentBlockStart None None
     (Some (mkEventContentBlock ContentTypeText "third" "" "" "" "" "")) None None].

(** The response as a caller reads it: every pointer of its content followed
    into the store. *)
Definition response_value (r : ResponseAccumulator) : option (Response (option Content)) :=
  (λ resp, Response_set_Content resp (deref (store r) <$> Response_Content resp))
    <$> response r.

(** A snapshot with two blocks, as a second [message_start] might carry. *)
Definition second_snapshot : Response (option Content) :=
  mkResponse "m2" "model" Assistant
    [Some (Text (mkTextContent "kept" None [])); None] "" None "message" (mkUsage 7 0 0 0).

(** A start at the explicit index 1 on a fresh stream: the index-less start
    that follows computes the same key. *)
Definition gapped_accumulator : ResponseAccumulator :=
  (AddEvent started_accumulator (start_event 1 ContentTypeText "explicit")).1.

Definition unindexed_event (ty : ContentType) (text : string) : Event :=
  mkEvent EventTypeContentBlockStart None None
    (Some (mkEventContentBlock ty text "" "" "" "" "")) None None.

(** The [Response()] accessor's two results. *)
Definition Response_state (r : ResponseAccumulator) : ResponseAccumulator :=
  (ResponseAccumulator_Response r).1.

(** A callback that refuses the lines of named events. *)
Definition sample_callback (line : string) : error :=
  if HasPrefix line "event:" then Some "named events are not expected" else None.

(** A whole stream for one text block, as the iterator's reader yields it. *)
Definition sample_text_stream : list Event :=
  [message_start_event sample_snapshot None;
   start_event 0 ContentTypeText "Hello";
   delta_event 0 EventDeltaTypeText ", ";
   delta_event 0 EventDeltaTypeText "world";
   bare_event EventTypeMessageStop].

(** * util.go: [addPrefill] *)

(** The loop of [addPrefill]: the first text block decides.  The text is
    updated in place; the blocks after the call are returned with the
    error. *)
Fixpoint addPrefillLoop (blocks : list Content) (prefill closingTag : string)
    : list Content * error :=
  match blocks with
  | [] => ([], Some "no text content found in message")
  | Text c :: rest =>
      if bool_decide (closingTag = "") || Contains (TextContent_Text c) closingTag
      then (Text (mkTextContent (prefill +:+ TextContent_Text c)
                    (TextContent_CacheControl c) (TextContent_Citations c)) :: rest, None)
      else (Text c :: rest, Some "prefill closing tag not found")
  | block :: rest =>
      let '(rest', err) := addPrefillLoop rest prefill closingTag in (block :: rest', err)
  end.

Definition addPrefill (blocks : list Content) (prefill closingTag : string)
    : list Content * error :=
  if decide (prefill = "") then (blocks, None)
  else addPrefillLoop blocks prefill closingTag.

Definition is_text (block : Content) : Prop :=
  match block with Text _ => True | _ => False end.

(** * The methods of [Message] *)

(** The first text block of a list, if any. *)
Fixpoint firstText (blocks : list Content) : option string :=
  match blocks with
  | [] => None
  | Text c :: _ => Some (TextContent_Text c)
  | _ :: rest => firstText rest
  end.

(** [LastText]: the loop runs from the last block down to the first. *)
Definition Message_LastText (m : Message) : string :=
  default "" (firstText (reverse (Message_Content m))).

(** Two line feeds. *)
Definition blank_line : string := String "010" (String "010" "").

(** [Text]: the loop, with its counter and its string builder. *)
Definition Message_Text (m : Message) : string :=
  (foldl (λ '(textCount, sb) content,
            match content with
            | Text c =>
                (S textCount,
                 (if decide (0 < textCount)%nat then sb +:+ blank_line else sb)
                   +:+ TextContent_Text c)
            | _ => (textCount, sb)
            end)
         (0%nat, "") (Message_Content m)).2.

(** [WithText] appends one text block per string to the message's content. *)
Definition Message_WithText (m : Message) (text : list string) : Message :=
  foldl (λ m t, mkMessage (Message_ID m) (Message_Role m)
                  (Message_Content m ++ [Text (mkTextContent t None [])]))
        m text.

(** [ThinkingContent]: the first thinking block, if any. *)
Fixpoint firstThinking (blocks : list Content) : option ThinkingContent :=
  match blocks with
  | [] => None
  | Thinking c :: _ => Some c
  | _ :: rest => firstThinking rest
  end.

Definition Message_ThinkingContent (m : Message) : option ThinkingContent :=
  firstThinking (Message_Content m).

(** The texts of the text blocks of a list, in order. *)
Definition texts (blocks : list Content) : list string :=
  omap (λ block, match block with Text c => Some (TextContent_Text c) | _ => None end) blocks.

Definition sample_mixed_message : Message :=
  mkMessage "msg_1" Assistant
    [sample_tool "tool1"; sample_text "Here is the result:";
     Thinking (mkThinkingContent "" "hmm" "sig");
     sample_tool "tool2"; sample_text "Additional text"].

(** ** [convertMessages]

    The request path validates the caller's messages, reorders them in place
    and sends copies without identifier.  The copy of a block is the block
    itself, but for a tool result, rebuilt from its four fields, and for a
    document whose source is a file with a file identifier, rebuilt with a
    source cut down to its type and file identifier.  Documents carry their
    JSON text here, so that cut is the argument [fileDocument]: it gives the
    rebuilt document when the source is such a file, and nothing otherwise. *)

Definition copyContent (fileDocument : string → option string) (content : Content) : Content :=
  match content with
  | Other ToolResultContent json => Other ToolResultContent json
  | Other DocumentContent json =>
      match fileDocument json with
      | Some docContent => Other DocumentContent docContent
      | None => content
      end
  | _ => content
  end.

(** The validation loop: the index of the first message without content. *)
Fixpoint firstEmpty (i : nat) (messages : list Message) : option nat :=
  match messages with
  | [] => None
  | message :: rest =>
      if decide (length (Message_Content message) = 0%nat) then Some i
      else firstEmpty (S i) rest
  end.

(** The result pairs the caller's messages as the call leaves them with what
    is returned: the copies, or the text of the error. *)
Definition convertMessages (fileDocument : string → option string) (messages : list Message)
    : list Message * (list Message + string) :=
  if decide (length messages = 0%nat) then (messages, inr "no messages provided")
  else
    match firstEmpty 0 messages with
    | Some i => (messages, inr ("empty message detected (index " +:+ pretty i +:+ ")"))
    | None =>
        let messages := reorderMessageContent messages in
        (messages,
         inl ((λ message,
                 mkMessage "" (Message_Role message)
                   (copyContent fileDocument <$> Message_Content message)) <$> messages))
    end.

Definition sample_document : Content := Other DocumentContent "doc".

Definition sample_conversation : list Message :=
  [mkMessage "m0" User [sample_text "Hello"; sample_document];
   sample_mixed_message;
   mkMessage "m2" User [Other ToolResultContent "result"]].

Definition sample_fileDocument (json : string) : option string :=
  if decide (json = "doc") then Some "file" else None.
(** * Properties of the accumulator *)

(** ** The switch, case by case *)

Lemma dispatch_MessageStart r e :
  Event_Type e = EventTypeMessageStart → dispatch r e = caseMessageStart r e.
Proof. intros H. unfold dispatch. by rewrite H. Qed.

Lemma dispatch_ContentBlockStart r e :
  Event_Type e = EventTypeContentBlockStart → dispatch r e = caseContentBlockStart r e.
Proof. intros H. unfold dispatch. by rewrite H. Qed.

Lemma dispatch_ContentBlockDelta r e :
  Event_Type e = EventTypeContentBlockDelta → dispatch r e = caseContentBlockDelta r e.
Proof. intros H. unfold dispatch. by rewrite H. Qed.

Lemma dispatch_MessageDelta r e :
  Event_Type e = EventTypeMessageDelta → dispatch r e = caseMessageDelta r e.
Proof. intros H. unfold dispatch. by rewrite H. Qed.

Lemma dispatch_MessageStop r e :
  Event_Type e = EventTypeMessageStop → dispatch r e = caseMessageStop r e.
Proof. intros H. unfold dispatch. by rewrite H. Qed.

Lemma dispatch_unhandled r e : unhandled (Event_Type e) → dispatch r e = (r, None).
Proof.
  intros (? & ? & ? & ? & ?). unfold dispatch.
  repeat (case_decide; [congruence|]). done.
Qed.

(** ** The usage update *)

Lemma updateUsage_nil_response r e u :
  response r = None → Event_Usage e = Some u → updateUsage r e = (r, Panic).
Proof. intros Hr Hu. unfold updateUsage. by rewrite Hu, Hr. Qed.

Lemma updateUsage_no_usage r e :
  Event_Usage e = None → updateUsage r e = (r, Return None).
Proof. intros Hu. unfold updateUsage. by rewrite Hu. Qed.

Lemma updateUsage_started r e resp :
  response r = Some resp →
  updateUsage r e =
    (set_response r (Some (Response_set_Usage resp (add_usage (Response_Usage resp) (Event_Usage e)))),
     Return None).
Proof.
  intros Hr. unfold updateUsage. rewrite Hr.
  destruct (Event_Usage e); simpl; [done|].
  destruct r, resp; simpl in *. by subst.
Qed.

(** ** The empty state *)

(** C4 (as amended).  While no [message_start] has been processed, a
    [content_block_start], [content_block_delta] or [message_delta] event is
    answered with an explicit error, and the accumulator is left as it was. *)
Theorem AddEvent_empty_state_error (r : ResponseAccumulator) (e : Event) :
  response r = None →
  Event_Type e = EventTypeContentBlockStart ∨
  Event_Type e = EventTypeContentBlockDelta ∨
  Event_Type e = EventTypeMessageDelta →
  ∃ msg, AddEvent r e = (r, Return (Some msg)).
Proof.
  intros Hr [H | [H | H]]; unfold AddEvent.
  - rewrite dispatch_ContentBlockStart by done.
    unfold caseContentBlockStart. rewrite Hr. by eexists.
  - rewrite dispatch_ContentBlockDelta by done.
    unfold caseContentBlockDelta. rewrite Hr. by eexists.
  - rewrite dispatch_MessageDelta by done.
    unfold caseMessageDelta. rewrite Hr. by eexists.
Qed.

Lemma AddEvent_empty_state_error_witness :
  ∃ msg, AddEvent NewResponseAccumulator (start_event 0 ContentTypeText "") =
         (NewResponseAccumulator, Return (Some msg)).
Proof.
  apply (AddEvent_empty_state_error NewResponseAccumulator (start_event 0 ContentTypeText ""));
    [reflexivity | left; reflexivity].
Defined.

(** C4 as stated fails for [content_block_stop]: on a fresh accumulator the
    event is accepted with a nil error. *)
Lemma content_block_stop_in_empty_state_is_accepted :
  response NewResponseAccumulator = None ∧
  Event_Type (bare_event EventTypeContentBlockStop) = EventTypeContentBlockStop ∧
  AddEvent NewResponseAccumulator (bare_event EventTypeContentBlockStop) =
    (NewResponseAccumulator, Return None).
Proof. by vm_compute. Qed.

(** C10.  While no [message_start] has been processed, a [ping],
    [content_block_stop] or [message_stop] event that carries usage counters
    reaches the usage update with a nil response: the call panics, it does
    not return an error. *)
Theorem AddEvent_empty_state_usage_panics (r : ResponseAccumulator) (e : Event) (u : Usage) :
  response r = None →
  Event_Type e = EventTypePing ∨
  Event_Type e = EventTypeContentBlockStop ∨
  Event_Type e = EventTypeMessageStop →
  Event_Usage e = Some u →
  (AddEvent r e).2 = Panic.
Proof.
  intros Hr Hty Hu. unfold AddEvent.
  destruct Hty as [H | [H | H]].
  - rewrite dispatch_unhandled by (rewrite H; by repeat split).
    by rewrite (updateUsage_nil_response _ _ u).
  - rewrite dispatch_unhandled by (rewrite H; by repeat split).
    by rewrite (updateUsage_nil_response _ _ u).
  - rewrite dispatch_MessageStop by done. unfold caseMessageStop.
    rewrite (updateUsage_nil_response _ _ u); [done| |done].
    unfold finalizeContent. simpl. by rewrite Hr.
Qed.

Lemma AddEvent_empty_state_usage_panics_witness :
  (AddEvent NewResponseAccumulator (usage_event EventTypePing (mkUsage 1 2 3 4))).2 = Panic.
Proof.
  apply (AddEvent_empty_state_usage_panics NewResponseAccumulator
           (usage_event EventTypePing (mkUsage 1 2 3 4)) (mkUsage 1 2 3 4));
    [reflexivity | left; reflexivity | reflexivity].
Defined.

(** ** [message_delta] *)

(** C8.  In a started accumulator a [message_delta] replaces the stop reason
    exactly when the delta's stop reason is non-empty, and the stop sequence
    exactly when the delta's stop sequence is non-empty; an empty string
    leaves the field as it was.  Nothing else of the response changes but
    the usage, and the store, the block map and the completion flag stay. *)
Theorem message_delta_stop_fields (r : ResponseAccumulator) (resp : Response ContentRef)
    (e : Event) (d : EventDelta) :
  response r = Some resp →
  Event_Type e = EventTypeMessageDelta →
  Event_Delta e = Some d →
  ∃ resp',
    AddEvent r e = (set_response r (Some resp'), Return None) ∧
    Response_StopReason resp' =
      (if decide (EventDelta_StopReason d = "") then Response_StopReason resp
       else EventDelta_StopReason d) ∧
    Response_StopSequence resp' =
      (if decide (EventDelta_StopSequence d = "") then Response_StopSequence resp
       else Some (EventDelta_StopSequence d)) ∧
    Response_ID resp' = Response_ID resp ∧
    Response_Model resp' = Response_Model resp ∧
    Response_Role resp' = Response_Role resp ∧
    Response_Content resp' = Response_Content resp ∧
    Response_Type resp' = Response_Type resp ∧
    Response_Usage resp' = add_usage (Response_Usage resp) (Event_Usage e).
Proof.
  intros Hr Hty Hd. unfold AddEvent.
  rewrite dispatch_MessageDelta by done.
  unfold caseMessageDelta. rewrite Hr, Hd.
  erewrite updateUsage_started by reflexivity.
  eexists; split; [destruct r; reflexivity|].
  destruct resp; simpl.
  repeat case_decide; simpl; try done; by repeat split.
Qed.

Lemma message_delta_stop_fields_witness :
  ∃ resp',
    AddEvent (AddEvent started_accumulator (stop_delta_event "end_turn" "STOP")).1
             (stop_delta_event "" "") =
      (set_response (AddEvent started_accumulator (stop_delta_event "end_turn" "STOP")).1
         (Some resp'), Return None) ∧
    Response_StopReason resp' = "end_turn" ∧
    Response_StopSequence resp' = Some "STOP".
Proof.
  destruct (message_delta_stop_fields
              (AddEvent started_accumulator (stop_delta_event "end_turn" "STOP")).1
              (mkResponse "m1" "" Assistant [] "end_turn" (Some "STOP") "message" Usage_zero)
              (stop_delta_event "" "")
              (mkEventDelta "" "" 0 "" "" "" "" ""))
    as (resp' & Heq & Hreason & Hseq & _); [reflexivity | reflexivity | reflexivity |].
  exists resp'. split; [exact Heq|]. split; [exact Hreason | exact Hseq].
Defined.

(** ** Strings *)

Lemma append_nil_r (s : string) : s +:+ "" = s.
Proof.
  induction s as [|a s IH]; [done|].
  change (String a (s +:+ "") = String a s). by rewrite IH.
Qed.

Lemma append_assoc (s1 s2 s3 : string) : (s1 +:+ s2) +:+ s3 = s1 +:+ (s2 +:+ s3).
Proof.
  induction s1 as [|a s1 IH]; [done|].
  change (String a ((s1 +:+ s2) +:+ s3) = String a (s1 +:+ (s2 +:+ s3))). by rewrite IH.
Qed.

(** ** [content_block_delta] *)

Lemma AddEvent_ContentBlockDelta r resp e d index content :
  response r = Some resp →
  Event_Type e = EventTypeContentBlockDelta →
  Event_Index e = Some index →
  Event_Delta e = Some d →
  contentBlocks r !! index = Some content →
  AddEvent r e =
    match mergeDelta (deref (store r) content) d with
    | inr msg => (r, Return (errors_New msg))
    | inl block => updateUsage (set_store r (assign (store r) content block)) e
    end.
Proof.
  intros Hr Hty Hi Hd Hc. unfold AddEvent.
  rewrite dispatch_ContentBlockDelta by done.
  unfold caseContentBlockDelta. rewrite Hr, Hd, Hi, Hc.
  by destruct (mergeDelta _ d) as [block|msg].
Qed.

Lemma mergeDelta_text c d :
  EventDelta_Type d = EventDeltaTypeText →
  mergeDelta (Some (Text c)) d = inl (Some (Text (TextContent_append c (EventDelta_Text d)))).
Proof. intros Hty. unfold mergeDelta. by rewrite Hty. Qed.

Lemma AddEvent_text_delta r resp e index p c :
  response r = Some resp →
  contentBlocks r !! index = Some (Some p) →
  store r !! p = Some (Text c) →
  text_delta_for index e →
  AddEvent r e =
    (mkResponseAccumulator
       (<[p := Text (TextContent_append c (delta_text e))]> (store r))
       (Some (Response_set_Usage resp (add_usage (Response_Usage resp) (Event_Usage e))))
       (contentBlocks r) (complete r),
     Return None).
Proof.
  intros Hr Hc Hp (Hty & Hi & d & Hd & Hdty).
  erewrite AddEvent_ContentBlockDelta by done.
  simpl. rewrite Hp. rewrite mergeDelta_text by done.
  erewrite updateUsage_started by (simpl; done).
  unfold delta_text. by rewrite Hd.
Qed.

Lemma AddEvents_text_deltas index p evs : ∀ r resp c,
  response r = Some resp →
  contentBlocks r !! index = Some (Some p) →
  store r !! p = Some (Text c) →
  Forall (text_delta_for index) evs →
  ∃ r',
    AddEvents r evs = (r', replicate (length evs) (Return None)) ∧
    contentBlocks r' = contentBlocks r ∧
    complete r' = complete r ∧
    is_Some (response r') ∧
    store r' =
      <[p := Text (TextContent_append c (concat_strings (delta_text <$> evs)))]> (store r).
Proof.
  induction evs as [|e evs IH]; intros r resp c Hr Hc Hp Hall.
  - exists r. simpl. repeat split; [by eexists|].
    symmetry. apply list_insert_id. rewrite Hp. destruct c.
    unfold TextContent_append, concat_strings; simpl.
    by rewrite append_nil_r.
  - apply Forall_cons in Hall as [He Hall].
    simpl. erewrite AddEvent_text_delta by done.
    edestruct (IH (mkResponseAccumulator
                     (<[p := Text (TextContent_append c (delta_text e))]> (store r))
                     (Some (Response_set_Usage resp (add_usage (Response_Usage resp) (Event_Usage e))))
                     (contentBlocks r) (complete r)))
      as (r' & Hrun & Hcb & Hcomp & Hresp & Hst); [done | done | | done |].
    { simpl. apply list_lookup_insert_eq. by eapply lookup_lt_Some. }
    exists r'. rewrite Hrun. simpl in *. repeat split; try done.
    rewrite Hst, list_insert_insert_eq. do 2 f_equal.
    unfold TextContent_append; simpl. by rewrite append_assoc.
Qed.

(** C2 (as amended).  For a started text block at [index]:
    - every text delta addressed to it appends its text to the block's text,
      so that a list of text deltas leaves the block with its former text
      followed by the deltas' texts in order, every call returning nil;
    - an input-JSON, thinking or signature delta addressed to it makes
      [AddEvent] return an error and leaves the whole accumulator, hence the
      block, as it was;
    - a delta of any other kind (citations_delta, an unknown kind) is
      accepted with a nil error and leaves the store and the map as they
      were. *)
Theorem text_block_deltas (r : ResponseAccumulator) (resp : Response ContentRef)
    (index : Z) (p : nat) (c : TextContent) :
  response r = Some resp →
  contentBlocks r !! index = Some (Some p) →
  store r !! p = Some (Text c) →
  (∀ evs, Forall (text_delta_for index) evs →
     ∃ r', AddEvents r evs = (r', replicate (length evs) (Return None)) ∧
           contentBlocks r' = contentBlocks r ∧
           store r' =
             <[p := Text (TextContent_append c (concat_strings (delta_text <$> evs)))]> (store r)) ∧
  (∀ e d, Event_Type e = EventTypeContentBlockDelta → Event_Index e = Some index →
     Event_Delta e = Some d → other_block_delta (EventDelta_Type d) →
     ∃ msg, AddEvent r e = (r, Return (Some msg))) ∧
  (∀ e d, Event_Type e = EventTypeContentBlockDelta → Event_Index e = Some index →
     Event_Delta e = Some d → ¬ handled_delta (EventDelta_Type d) →
     ∃ r', AddEvent r e = (r', Return None) ∧
           store r' = store r ∧ contentBlocks r' = contentBlocks r).
Proof.
  intros Hr Hc Hp. split; [|split].
  - intros evs Hall.
    destruct (AddEvents_text_deltas index p evs r resp c Hr Hc Hp Hall)
      as (r' & Hrun & Hcb & _ & _ & Hst).
    by exists r'.
  - intros e d Hty Hi Hd Hother.
    erewrite AddEvent_ContentBlockDelta by done.
    simpl. rewrite Hp. unfold mergeDelta.
    destruct Hother as [H | [H | H]]; rewrite H; simpl; by eexists.
  - intros e d Hty Hi Hd Hnot.
    erewrite AddEvent_ContentBlockDelta by done.
    simpl. rewrite Hp. unfold mergeDelta, handled_delta, other_block_delta in *.
    repeat (case_decide; [exfalso; tauto|]).
    erewrite updateUsage_started by (simpl; done).
    eexists; split; [done|]. simpl. split; [|done].
    by apply list_insert_id.
Qed.

Lemma text_block_deltas_witness :
  ∃ r',
    AddEvents hello_accumulator
      [delta_event 0 EventDeltaTypeText " "; delta_event 0 EventDeltaTypeText "world"] =
      (r', [Return None; Return None]) ∧
    deref (store r') (Some 0%nat) = Some (Text (mkTextContent "Hello world" None [])) ∧
    ∃ msg, AddEvent hello_accumulator (delta_event 0 EventDeltaTypeInputJSON "{") =
           (hello_accumulator, Return (Some msg)).
Proof.
  destruct (text_block_deltas hello_accumulator
              (mkResponse "m1" "" Assistant [] "" None "message" Usage_zero)
              0 0%nat (mkTextContent "Hello" None []))
    as (Happend & Hreject & _); [reflexivity | reflexivity | reflexivity |].
  destruct (Happend [delta_event 0 EventDeltaTypeText " "; delta_event 0 EventDeltaTypeText "world"])
    as (r' & Hrun & _ & Hst).
  { repeat constructor; eexists; split; reflexivity. }
  exists r'. split; [exact Hrun|]. split.
  - rewrite Hst. reflexivity.
  - apply (Hreject (delta_event 0 EventDeltaTypeInputJSON "{")
             (mkEventDelta EventDeltaTypeInputJSON "{" 0 "" "" "{" "{" "{"));
      [reflexivity | reflexivity | reflexivity | left; reflexivity].
Defined.

(** C2 as stated fails for the delta kinds without a case: a citations
    delta, and a delta of an unknown kind, aimed at the text block "Hello"
    are both answered with a nil error. *)
Lemma unmatched_delta_on_text_block_is_accepted :
  contentBlocks hello_accumulator !! 0 = Some (Some 0%nat) ∧
  store hello_accumulator !! 0%nat = Some (Text (mkTextContent "Hello" None [])) ∧
  AddEvent hello_accumulator (delta_event 0 EventDeltaTypeCitations "x") =
    (hello_accumulator, Return None) ∧
  AddEvent hello_accumulator (delta_event 0 "unknown_delta" "x") =
    (hello_accumulator, Return None).
Proof. by vm_compute. Qed.

(** ** What one call can do *)

(** The three ways out of the switch: [return] of an error (the accumulator
    untouched), [return nil] (only in the [message_start] case), or falling
    through to the usage update with the response still there and its usage
    counters untouched. *)
Lemma dispatch_inv r e r1 o :
  dispatch r e = (r1, o) →
  match o with
  | Some (Some _) => r1 = r
  | Some None => Event_Type e = EventTypeMessageStart
  | None =>
      Event_Type e ≠ EventTypeMessageStart ∧
      ∀ resp, response r = Some resp →
        ∃ resp1, response r1 = Some resp1 ∧ Response_Usage resp1 = Response_Usage resp
  end.
Proof.
  unfold dispatch. repeat case_decide.
  - unfold caseMessageStart. destruct (Event_Message e) as [m|].
    + destruct (adopt _ _). by intros [= <- <-].
    + by intros [= <- <-].
  - unfold caseContentBlockStart.
    destruct (response r) as [resp|] eqn:Hr; [|by intros [= <- <-]].
    destruct (Event_ContentBlock e) as [cb|]; [|by intros [= <- <-]].
    destruct (alloc _ _). intros [= <- <-]. split; [done|].
    intros resp0 [= <-]. by exists resp.
  - unfold caseContentBlockDelta.
    destruct (response r) as [resp|] eqn:Hr; [|by intros [= <- <-]].
    destruct (Event_Delta e) as [d|]; [|by intros [= <- <-]].
    destruct (Event_Index e) as [i|]; [|by intros [= <- <-]].
    destruct (contentBlocks r !! i) as [content|]; [|by intros [= <- <-]].
    destruct (mergeDelta _ d) as [block|msg]; intros [= <- <-]; [|done].
    split; [done|]. intros resp0 [= <-]. by exists resp.
  - unfold caseMessageDelta.
    destruct (response r) as [resp|] eqn:Hr; [|by intros [= <- <-]].
    destruct (Event_Delta e) as [d|]; [|by intros [= <- <-]].
    intros [= <- <-]. split; [done|]. intros resp0 [= <-].
    eexists; split; [done|]. destruct resp; by repeat case_decide.
  - unfold caseMessageStop, finalizeContent. simpl. intros [= <- <-]. split; [done|].
    intros resp Hr. rewrite Hr. case_decide; simpl; [by exists resp|].
    by eexists.
  - intros [= <- <-]. split; [done|]. intros resp Hr. by exists resp.
Qed.

(** A call that returns an error leaves the accumulator as it was. *)
Lemma AddEvent_error_unchanged r e r' msg :
  AddEvent r e = (r', Return (Some msg)) → r' = r.
Proof.
  unfold AddEvent. destruct (dispatch r e) as [r1 [[msg'|]|]] eqn:Hd.
  - apply dispatch_inv in Hd. by intros [= <- _].
  - by intros [= _ ?].
  - unfold updateUsage. destruct (Event_Usage e); [|by intros [= _ ?]].
    destruct (response r1); by intros [= _ ?].
Qed.

(** A successful call for an event other than [message_start] adds the
    event's usage payload, if any, to the response's counters. *)
Lemma AddEvent_usage r e r' resp :
  Event_Type e ≠ EventTypeMessageStart →
  response r = Some resp →
  AddEvent r e = (r', Return None) →
  ∃ resp', response r' = Some resp' ∧
           Response_Usage resp' = add_usage (Response_Usage resp) (Event_Usage e).
Proof.
  intros Hty Hr. unfold AddEvent.
  destruct (dispatch r e) as [r1 [[msg|]|]] eqn:Hd; [done| |].
  - by apply dispatch_inv in Hd.
  - apply dispatch_inv in Hd as [_ Hd]. destruct (Hd resp Hr) as (resp1 & Hr1 & Hu).
    rewrite (updateUsage_started _ _ resp1) by done. intros [= <-]. simpl.
    eexists; split; [done|]. simpl. by rewrite Hu.
Qed.

(** ** Usage *)

Lemma int_wrap_add_l a b : int_wrap (int_wrap a + b) = int_wrap (a + b).
Proof.
  unfold int_wrap. f_equal.
  replace ((a + 2 ^ 63) `mod` 2 ^ 64 - 2 ^ 63 + b + 2 ^ 63)
    with ((a + 2 ^ 63) `mod` 2 ^ 64 + b) by lia.
  rewrite Zplus_mod_idemp_l. f_equal. lia.
Qed.

Lemma int_wrap_in_range a : int_range a → int_wrap a = a.
Proof. unfold int_range, int_wrap. intros H. rewrite Z.mod_small; lia. Qed.

Lemma Usage_Add_wrap u v : Usage_Add (Usage_wrap u) v = Usage_wrap (Usage_plus u v).
Proof.
  unfold Usage_Add, Usage_wrap, Usage_plus, int_add. simpl.
  by rewrite !int_wrap_add_l.
Qed.

Lemma Usage_wrap_in_range u : Usage_in_range u → Usage_wrap u = u.
Proof.
  intros (? & ? & ? & ?). destruct u. unfold Usage_wrap. simpl in *.
  by rewrite !int_wrap_in_range.
Qed.

Lemma Usage_plus_assoc u v w : Usage_plus (Usage_plus u v) w = Usage_plus u (Usage_plus v w).
Proof. unfold Usage_plus. simpl. f_equal; lia. Qed.

Lemma AddEvents_usage evs : ∀ r resp base us r',
  response r = Some resp →
  Response_Usage resp = Usage_wrap base →
  Forall (λ e, Event_Type e ≠ EventTypeMessageStart) evs →
  Event_Usage <$> evs = Some <$> us →
  AddEvents r evs = (r', replicate (length evs) (Return None)) →
  ResponseAccumulator_Usage r' = Some (Usage_wrap (Usage_plus base (usage_sum us))).
Proof.
  induction evs as [|e evs IH]; intros r resp base us r' Hr Hbase Hall Hus Hrun.
  - destruct us; [|done]. simpl in *. injection Hrun as <-.
    unfold ResponseAccumulator_Usage. rewrite Hr. simpl. rewrite Hbase.
    do 2 f_equal. unfold Usage_plus. destruct base; simpl. f_equal; lia.
  - destruct us as [|u us]; [done|]. injection Hus as Hu Hus.
    apply Forall_cons in Hall as [He Hall].
    simpl in Hrun. destruct (AddEvent r e) as [r1 [err|]] eqn:Hstep; [|done].
    destruct (AddEvents r1 evs) as [r2 outs] eqn:Hrest.
    injection Hrun as <- -> ->.
    destruct (AddEvent_usage r e r1 resp He Hr Hstep) as (resp1 & Hr1 & Hu1).
    rewrite Hu, Hbase in Hu1. simpl in Hu1. rewrite Usage_Add_wrap in Hu1.
    rewrite (IH r1 resp1 (Usage_plus base u) us r2 Hr1 Hu1 Hall Hus Hrest).
    simpl. by rewrite Usage_plus_assoc.
Qed.

(** C3 (as amended).  For every started accumulator and every sequence of
    events none of which is a [message_start], each carrying usage counters
    and each processed successfully, the response's final usage is its usage
    before the sequence plus the component-wise sum of the counters of all
    the events, in the arithmetic of [int]: whichever of the event kinds
    carried them.  When the sums fit in an [int] this is the plain sum. *)
Theorem usage_is_sum_of_payloads (r : ResponseAccumulator) (resp : Response ContentRef)
    (evs : list Event) (us : list Usage) (r' : ResponseAccumulator) :
  response r = Some resp →
  Usage_in_range (Response_Usage resp) →
  Forall (λ e, Event_Type e ≠ EventTypeMessageStart) evs →
  Event_Usage <$> evs = Some <$> us →
  AddEvents r evs = (r', replicate (length evs) (Return None)) →
  ResponseAccumulator_Usage r' =
    Some (Usage_wrap (Usage_plus (Response_Usage resp) (usage_sum us))) ∧
  (Usage_in_range (Usage_plus (Response_Usage resp) (usage_sum us)) →
   ResponseAccumulator_Usage r' = Some (Usage_plus (Response_Usage resp) (usage_sum us))).
Proof.
  intros Hr Hrange Hall Hus Hrun.
  assert (ResponseAccumulator_Usage r' =
            Some (Usage_wrap (Usage_plus (Response_Usage resp) (usage_sum us)))) as Hfinal.
  { eapply AddEvents_usage; [done| |done|done|done]. by rewrite Usage_wrap_in_range. }
  split; [done|]. intros Hfit. by rewrite Hfinal, Usage_wrap_in_range.
Qed.

Lemma usage_is_sum_of_payloads_witness :
  ResponseAccumulator_Usage (AddEvents started_accumulator sample_usage_events).1 =
    Some (mkUsage 1111 2222 3333 4444).
Proof.
  destruct (usage_is_sum_of_payloads started_accumulator
              (mkResponse "m1" "" Assistant [] "" None "message" Usage_zero)
              sample_usage_events sample_usages
              (AddEvents started_accumulator sample_usage_events).1) as [_ Hsum].
  - reflexivity.
  - repeat split; by vm_compute.
  - unfold sample_usage_events. repeat (apply Forall_cons_2; [by vm_compute|]). apply Forall_nil_2.
  - reflexivity.
  - reflexivity.
  - apply Hsum. repeat split; by vm_compute.
Defined.

(** C3 as stated fails when one of the events is a [message_start]: its case
    returns before the usage update, so its own counters are not added.  Two
    events with counters (1,1,1,1) each, both processed successfully, leave
    the usage at (1,1,1,1), not at the sum (2,2,2,2). *)
Lemma message_start_usage_is_not_added :
  AddEvents NewResponseAccumulator
    [message_start_event sample_snapshot (Some (mkUsage 1 1 1 1));
     usage_event EventTypePing (mkUsage 1 1 1 1)] =
    ((AddEvents NewResponseAccumulator
        [message_start_event sample_snapshot (Some (mkUsage 1 1 1 1));
         usage_event EventTypePing (mkUsage 1 1 1 1)]).1,
     [Return None; Return None]) ∧
  ResponseAccumulator_Usage
    (AddEvents NewResponseAccumulator
       [message_start_event sample_snapshot (Some (mkUsage 1 1 1 1));
        usage_event EventTypePing (mkUsage 1 1 1 1)]).1 = Some (mkUsage 1 1 1 1) ∧
  usage_sum [mkUsage 1 1 1 1; mkUsage 1 1 1 1] = mkUsage 2 2 2 2.
Proof. by vm_compute. Qed.

(** ** The blocks of the map along a run *)

Lemma blocks_lookup r k : blocks r !! k = deref (store r) <$> contentBlocks r !! k.
Proof. unfold blocks. apply lookup_fmap. Qed.

Lemma deref_block_at r k :
  deref (store r) (block_at (contentBlocks r) k) = default None (blocks r !! k).
Proof. rewrite blocks_lookup. unfold block_at. by destruct (contentBlocks r !! k). Qed.

Lemma well_formed_empty st resp b :
  well_formed (mkResponseAccumulator st resp ∅ b).
Proof. split; simpl; intros *; by rewrite lookup_empty. Qed.

(** A start event in a started accumulator: a fresh block enters the map. *)
Lemma AddEvent_block_start r resp e :
  response r = Some resp →
  well_formed r →
  block_start e →
  ∃ r', AddEvent r e = (r', Return None) ∧
        well_formed r' ∧
        blocks r' = start_step (blocks r) e ∧
        complete r' = complete r ∧
        ∃ resp', response r' = Some resp' ∧ Response_Content resp' = Response_Content resp.
Proof.
  intros Hr [Hw1 Hw2] (Hty & [i Hi] & [cb Hcb]).
  unfold AddEvent. rewrite dispatch_ContentBlockStart by done.
  unfold caseContentBlockStart, start_step. rewrite Hr, Hcb, Hi. simpl.
  destruct (startContent cb) as [c|] eqn:Hc; simpl.
  - erewrite updateUsage_started by (simpl; done).
    eexists; split; [done|]. simpl. repeat split; simpl.
    + intros k p. rewrite length_app. simpl. destruct (decide (i = k)) as [<-|Hne].
      * rewrite lookup_insert_eq. intros [= <-]. lia.
      * rewrite lookup_insert_ne by done. intros H%Hw1. lia.
    + intros k1 k2 p.
      destruct (decide (i = k1)) as [<-|H1], (decide (i = k2)) as [<-|H2];
        rewrite ?lookup_insert_eq, ?lookup_insert_ne by done; try done.
      * intros [= <-] H%Hw1. lia.
      * intros H%Hw1 [= <-]. lia.
      * apply Hw2.
    + unfold blocks. simpl. rewrite fmap_insert. f_equal.
      * simpl. by rewrite lookup_app_r, Nat.sub_diag by lia.
      * apply map_fmap_ext. intros k [p|] Hk; [|done]. simpl.
        apply lookup_app_l. by eapply Hw1.
    + by eexists.
  - erewrite updateUsage_started by (simpl; done).
    eexists; split; [done|]. simpl. repeat split; simpl.
    + intros k p. destruct (decide (i = k)) as [<-|Hne].
      * by rewrite lookup_insert_eq.
      * rewrite lookup_insert_ne by done. apply Hw1.
    + intros k1 k2 p.
      destruct (decide (i = k1)) as [<-|H1], (decide (i = k2)) as [<-|H2];
        rewrite ?lookup_insert_eq, ?lookup_insert_ne by done; try done.
      apply Hw2.
    + unfold blocks. simpl. by rewrite fmap_insert.
    + by eexists.
Qed.

Lemma mergeDelta_inl_None block d : mergeDelta block d = inl None → block = None.
Proof.
  unfold mergeDelta. repeat case_decide; destruct block as [[]|]; by intros [=].
Qed.

Lemma mergeDelta_nil d block : mergeDelta None d = inl block → block = None.
Proof. unfold mergeDelta. repeat case_decide; by intros [=]. Qed.

Lemma alter_pointwise (f : option Content → option Content) (m m' : gmap Z (option Content)) i :
  (∀ k, m' !! k = if decide (k = i) then f <$> m !! k else m !! k) →
  m' = alter f i m.
Proof.
  intros H. apply map_eq. intros k. rewrite H. case_decide as Hk.
  - subst. by rewrite lookup_alter_eq.
  - by rewrite lookup_alter_ne.
Qed.

(** What the in-place update does to the blocks of the map. *)
Lemma blocks_assign r i content d block :
  well_formed r →
  contentBlocks r !! i = Some content →
  mergeDelta (deref (store r) content) d = inl block →
  deref (assign (store r) content block) <$> contentBlocks r = alter (merge d) i (blocks r).
Proof.
  intros [Hw1 Hw2] Hi Hm. apply alter_pointwise. intros k.
  rewrite lookup_fmap, blocks_lookup.
  destruct content as [p|]; simpl in *.
  - assert (p < length (store r))%nat as Hp by by eapply Hw1.
    destruct block as [c|]; simpl.
    + case_decide as Hk.
      * subst k. rewrite Hi. simpl. rewrite list_lookup_insert_eq by done.
        unfold merge. by rewrite Hm.
      * destruct (contentBlocks r !! k) as [[q|]|] eqn:Hq; simpl; try done.
        rewrite list_lookup_insert_ne; [done|]. intros ->. apply Hk. by eapply Hw2.
    + apply mergeDelta_inl_None in Hm as Hnone.
      case_decide as Hk; [|done].
      subst k. rewrite Hi. simpl. unfold merge. rewrite Hm. by rewrite Hnone.
  - apply mergeDelta_nil in Hm as ->.
    case_decide as Hk; [|done].
    subst k. rewrite Hi. simpl. unfold merge.
    destruct (mergeDelta None d) as [b|] eqn:Hb; [|done].
    by apply mergeDelta_nil in Hb as ->.
Qed.

Lemma well_formed_assign r content block :
  well_formed r → well_formed (set_store r (assign (store r) content block)).
Proof.
  intros [Hw1 Hw2]. split; simpl; [|done].
  intros k p Hk. destruct content as [q|], block as [c|]; simpl;
    rewrite ?length_insert; by eapply Hw1.
Qed.

(** A delta event in a started accumulator: the block it addresses is
    updated in place (or the event is rejected); the map itself, the
    response's content and the completion flag stay. *)
Lemma AddEvent_block_delta r resp e :
  response r = Some resp →
  well_formed r →
  block_delta e →
  ∃ r' err, AddEvent r e = (r', Return err) ∧
        well_formed r' ∧
        blocks r' = delta_step (blocks r) e ∧
        contentBlocks r' = contentBlocks r ∧
        complete r' = complete r ∧
        ∃ resp', response r' = Some resp' ∧ Response_Content resp' = Response_Content resp.
Proof.
  intros Hr Hwf Hty. unfold block_delta in Hty.
  unfold AddEvent. rewrite dispatch_ContentBlockDelta by done.
  unfold caseContentBlockDelta, delta_step. rewrite Hr.
  destruct (Event_Delta e) as [d|]; [|destruct (Event_Index e)];
    [|by (eexists _, _; repeat (split; [done|]); by eexists)..].
  destruct (Event_Index e) as [i|];
    [|by (eexists _, _; repeat (split; [done|]); by eexists)].
  destruct (contentBlocks r !! i) as [content|] eqn:Hi.
  - destruct (mergeDelta _ d) as [block|msg] eqn:Hm.
    + erewrite updateUsage_started by (simpl; done).
      eexists _, _; split; [done|]. simpl.
      split; [exact (well_formed_assign r content block Hwf)|].
      split; [exact (blocks_assign r i content d block Hwf Hi Hm)|].
      repeat (split; [done|]); by eexists.
    + eexists _, _; split; [done|]. split; [done|].
      split; [|repeat (split; [done|]); by eexists].
      apply alter_pointwise. intros k. case_decide as Hk; [|done].
      subst k. rewrite blocks_lookup, Hi. simpl. unfold merge. by rewrite Hm.
  - eexists _, _; split; [done|]. split; [done|].
    split; [|repeat (split; [done|]); by eexists].
    apply alter_pointwise. intros k. case_decide as Hk; [|done].
    subst k. by rewrite blocks_lookup, Hi.
Qed.

(** ** Runs *)

Lemma AddEvents_app r l1 l2 r1 errs :
  AddEvents r l1 = (r1, Return <$> errs) →
  AddEvents r (l1 ++ l2) = ((AddEvents r1 l2).1, (Return <$> errs) ++ (AddEvents r1 l2).2).
Proof.
  revert r errs. induction l1 as [|e l1 IH]; intros r errs; simpl.
  - destruct errs; [|done]. intros [= <-]. by destruct (AddEvents r l2).
  - destruct (AddEvent r e) as [r' [err|]]; [|by destruct errs].
    destruct (AddEvents r' l1) as [r'' outs] eqn:Hrest.
    destruct errs as [|err' errs]; [done|]. intros [= -> <- ->].
    rewrite (IH r' errs Hrest). simpl. by destruct (AddEvents r1 l2).
Qed.

Lemma AddEvents_block_starts starts : ∀ r resp,
  response r = Some resp →
  well_formed r →
  Forall block_start starts →
  ∃ r', AddEvents r starts = (r', Return <$> replicate (length starts) None) ∧
        well_formed r' ∧
        blocks r' = foldl start_step (blocks r) starts ∧
        complete r' = complete r ∧
        ∃ resp', response r' = Some resp' ∧ Response_Content resp' = Response_Content resp.
Proof.
  induction starts as [|e starts IH]; intros r resp Hr Hwf Hall.
  - exists r. simpl. repeat (split; [done|]). by eexists.
  - apply Forall_cons in Hall as [He Hall].
    destruct (AddEvent_block_start r resp e Hr Hwf He)
      as (r1 & Hstep & Hwf1 & Hb1 & Hc1 & resp1 & Hr1 & Hcontent1).
    destruct (IH r1 resp1 Hr1 Hwf1 Hall)
      as (r' & Hrun & Hwf' & Hb' & Hc' & resp' & Hr' & Hcontent').
    exists r'. simpl. rewrite Hstep, Hrun. split; [done|]. split; [done|].
    split; [by rewrite Hb', Hb1|]. split; [congruence|].
    exists resp'. split; [done|]. congruence.
Qed.

Lemma AddEvents_block_deltas deltas : ∀ r resp,
  response r = Some resp →
  well_formed r →
  Forall block_delta deltas →
  ∃ r' errs, AddEvents r deltas = (r', Return <$> errs) ∧
        length errs = length deltas ∧
        blocks r' = foldl delta_step (blocks r) deltas ∧
        contentBlocks r' = contentBlocks r ∧
        complete r' = complete r ∧
        ∃ resp', response r' = Some resp' ∧ Response_Content resp' = Response_Content resp.
Proof.
  induction deltas as [|e deltas IH]; intros r resp Hr Hwf Hall.
  - exists r, []. simpl. repeat (split; [done|]). by eexists.
  - apply Forall_cons in Hall as [He Hall].
    destruct (AddEvent_block_delta r resp e Hr Hwf He)
      as (r1 & err & Hstep & Hwf1 & Hb1 & Hm1 & Hc1 & resp1 & Hr1 & Hcontent1).
    destruct (IH r1 resp1 Hr1 Hwf1 Hall)
      as (r' & errs & Hrun & Hlen & Hb' & Hm' & Hc' & resp' & Hr' & Hcontent').
    exists r', (err :: errs). simpl. rewrite Hstep, Hrun.
    split; [done|]. split; [by rewrite Hlen|].
    split; [by rewrite Hb', Hb1|]. split; [congruence|]. split; [congruence|].
    exists resp'. split; [done|]. congruence.
Qed.

(** ** The blocks of the map, index by index *)

Lemma lookup_foldl_start_step starts (m : gmap Z (option Content)) k :
  foldl start_step m starts !! k =
    match last (filter (λ e, Event_Index e = Some k) starts) with
    | Some e => Some (Event_ContentBlock e ≫= startContent)
    | None => m !! k
    end.
Proof.
  induction starts as [|e starts IH] using rev_ind; [done|].
  rewrite foldl_snoc, filter_app, filter_cons, filter_nil.
  unfold start_step at 1. case_decide as He.
  - rewrite last_snoc, He. by rewrite lookup_insert_eq.
  - rewrite app_nil_r, <- IH. destruct (Event_Index e) as [i|]; [|done].
    rewrite lookup_insert_ne; [done|]. congruence.
Qed.

Lemma lookup_foldl_delta_step deltas : ∀ (m : gmap Z (option Content)) k,
  foldl delta_step m deltas !! k =
    (λ block, foldl (λ block d, merge d block) block (deltas_for deltas k)) <$> m !! k.
Proof.
  induction deltas as [|e deltas IH]; intros m k; simpl.
  - by destruct (m !! k).
  - rewrite IH. unfold delta_step, deltas_for. simpl.
    destruct (Event_Index e) as [i|]; [|by case_decide].
    destruct (Event_Delta e) as [d|]; [|by case_decide].
    case_decide as Hi.
    + injection Hi as ->. rewrite lookup_alter_eq. by destruct (m !! k).
    + rewrite lookup_alter_ne; [done|]. congruence.
Qed.

Lemma started_indices_spec starts k :
  k ∈ started_indices starts ↔
  is_Some (last (filter (λ e, Event_Index e = Some k) starts)).
Proof.
  unfold started_indices. rewrite list_elem_of_omap, last_is_Some. split.
  - intros (e & He & Hi) Hnil.
    by apply (filter_nil_not_elem_of (λ e, Event_Index e = Some k) starts e Hnil Hi).
  - intros Hne. destruct (filter _ starts) as [|e l] eqn:Hf; [done|].
    assert (e ∈ filter (λ e, Event_Index e = Some k) starts) as He
      by (rewrite Hf; left).
    apply list_elem_of_filter in He as [Hi He]. by exists e.
Qed.

(** ** Sorting the keys *)

Lemma StronglySorted_le_lt (l : list Z) :
  StronglySorted Z.le l → NoDup l → StronglySorted Z.lt l.
Proof.
  induction 1 as [|x l Hs IH Hall]; intros Hnd; [constructor|].
  apply NoDup_cons in Hnd as [Hx Hnd]. constructor; [by apply IH|].
  apply Forall_forall. intros y Hy.
  assert (x ≤ y) by by eapply Forall_forall in Hall.
  assert (x ≠ y) by (by intros ->). lia.
Qed.

Lemma sorted_keys_spec (m : gmap Z ContentRef) :
  StronglySorted Z.lt (sort_Ints (map_to_list m).*1) ∧
  ∀ k, k ∈ sort_Ints (map_to_list m).*1 ↔ is_Some (m !! k).
Proof.
  unfold sort_Ints. split.
  - apply StronglySorted_le_lt.
    + apply (StronglySorted_merge_sort Z.le).
    + rewrite merge_sort_Permutation. apply NoDup_fst_map_to_list.
  - intros k. rewrite merge_sort_Permutation, list_elem_of_fmap. split.
    + intros ([k' v] & -> & Hkv). apply elem_of_map_to_list in Hkv. by exists v.
    + intros [v Hv]. exists (k, v). split; [done|]. by apply elem_of_map_to_list.
Qed.

(** ** [message_start] and [message_stop] *)

Lemma AddEvent_message_start_fresh e m :
  Event_Type e = EventTypeMessageStart →
  Event_Message e = Some m →
  ∃ st resp,
    AddEvent NewResponseAccumulator e =
      (mkResponseAccumulator st (Some resp) ∅ false, Return None) ∧
    (Response_Content m = [] → Response_Content resp = []).
Proof.
  intros Hty Hm. unfold AddEvent. rewrite dispatch_MessageStart by done.
  unfold caseMessageStart. rewrite Hm. simpl.
  destruct (adopt [] (Response_Content m)) as [st ps] eqn:Ha.
  eexists _, _. split; [done|]. simpl. intros Hnil.
  rewrite Hnil in Ha. by injection Ha as <- <-.
Qed.

Lemma AddEvent_message_stop r resp e :
  response r = Some resp →
  Event_Type e = EventTypeMessageStop →
  ∃ r', AddEvent r e = (r', Return None) ∧
        complete r' = true ∧
        final_content r' =
          Some (if decide (size (contentBlocks r) = 0%nat)
                then deref (store r) <$> Response_Content resp
                else (λ k, default None (blocks r !! k)) <$>
                       sort_Ints (map_to_list (contentBlocks r)).*1).
Proof.
  intros Hr Hty. unfold AddEvent. rewrite dispatch_MessageStop by done.
  unfold caseMessageStop, finalizeContent. simpl. rewrite Hr.
  case_decide as Hsize.
  - erewrite updateUsage_started by (simpl; done).
    eexists; split; [done|]. split; [done|]. unfold final_content. by destruct resp.
  - erewrite updateUsage_started by (simpl; done).
    eexists; split; [done|]. split; [done|]. unfold final_content. simpl.
    f_equal. rewrite <- list_fmap_compose. apply list_fmap_ext.
    intros i k _. simpl. apply (deref_block_at r).
Qed.

Lemma block_value r1 r2 starts deltas k :
  blocks r1 = foldl start_step ∅ starts →
  blocks r2 = foldl delta_step (blocks r1) deltas →
  k ∈ started_indices starts →
  default None (blocks r2 !! k) = block_of starts deltas k.
Proof.
  intros H1 H2 [e He]%started_indices_spec.
  rewrite H2, lookup_foldl_delta_step, H1, lookup_foldl_start_step.
  unfold block_of, started_block. by rewrite He.
Qed.

Lemma started_keys r1 starts k :
  blocks r1 = foldl start_step ∅ starts →
  is_Some (contentBlocks r1 !! k) ↔ k ∈ started_indices starts.
Proof.
  intros H1. rewrite started_indices_spec.
  rewrite <- (fmap_is_Some (deref (store r1))), <- blocks_lookup, H1.
  rewrite lookup_foldl_start_step, lookup_empty.
  destruct (last _); [split; intros _; by eexists | split; by intros [? ?]].
Qed.

(** ** The final content *)

(** C1.  Feed a fresh accumulator a [message_start], then
    [content_block_start] events with explicit indices in any order of
    arrival, then [content_block_delta] events, then a [message_stop].  No
    call panics, the accumulator is complete, and the response's content is
    the list of the started blocks, each with the deltas addressed to it
    merged, in strictly ascending order of index: one entry per started
    index and no entry for an index that was never started.  (When no block
    at all is started, [finalizeContent] leaves the snapshot's content in
    place; that case is covered for a snapshot with empty content, as it is
    sent on the wire.) *)
Theorem final_content_in_index_order (e0 : Event) (m : Response (option Content))
    (starts deltas : list Event) (stop : Event) :
  Event_Type e0 = EventTypeMessageStart →
  Event_Message e0 = Some m →
  Forall block_start starts →
  Forall block_delta deltas →
  Event_Type stop = EventTypeMessageStop →
  (starts = [] → Response_Content m = []) →
  ∃ r' errs ks,
    AddEvents NewResponseAccumulator (e0 :: starts ++ deltas ++ [stop]) =
      (r', Return <$> errs) ∧
    length errs = length (e0 :: starts ++ deltas ++ [stop]) ∧
    IsComplete r' = true ∧
    StronglySorted Z.lt ks ∧
    (∀ k, k ∈ ks ↔ k ∈ started_indices starts) ∧
    final_content r' = Some (block_of starts deltas <$> ks).
Proof.
  intros Hty0 Hm Hstarts Hdeltas Htystop Hsnapshot.
  destruct (AddEvent_message_start_fresh e0 m Hty0 Hm) as (st0 & resp0 & Hstep0 & Hnil0).
  set (r0 := mkResponseAccumulator st0 (Some resp0) ∅ false) in *.
  destruct (AddEvents_block_starts starts r0 resp0 eq_refl (well_formed_empty _ _ _) Hstarts)
    as (r1 & Hrun1 & Hwf1 & Hb1 & _ & resp1 & Hr1 & Hcontent1).
  destruct (AddEvents_block_deltas deltas r1 resp1 Hr1 Hwf1 Hdeltas)
    as (r2 & errs & Hrun2 & Hlen2 & Hb2 & Hm2 & _ & resp2 & Hr2 & Hcontent2).
  destruct (AddEvent_message_stop r2 resp2 stop Hr2 Htystop)
    as (r3 & Hstep3 & Hcomplete & Hfinal).
  assert (blocks r0 = ∅) as Hb0 by apply fmap_empty. rewrite Hb0 in Hb1.
  destruct (sorted_keys_spec (contentBlocks r2)) as [Hsorted Hkeys].
  exists r3, (None :: replicate (length starts) None ++ errs ++ [None]),
    (sort_Ints (map_to_list (contentBlocks r2)).*1).
  assert (∀ k, k ∈ sort_Ints (map_to_list (contentBlocks r2)).*1 ↔
               k ∈ started_indices starts) as Hks.
  { intros k. rewrite Hkeys, Hm2. by apply started_keys. }
  split.
  { simpl. rewrite Hstep0. fold r0.
    rewrite (AddEvents_app r0 starts _ r1 _ Hrun1).
    rewrite (AddEvents_app r1 deltas _ r2 _ Hrun2).
    simpl. rewrite Hstep3. simpl. by rewrite !fmap_app. }
  split.
  { simpl. rewrite !length_app, length_replicate, Hlen2. done. }
  split; [done|]. split; [done|]. split; [done|].
  rewrite Hfinal. f_equal. case_decide as Hsize.
  - apply map_size_empty_iff in Hsize. rewrite Hsize in *.
    rewrite map_to_list_empty. simpl.
    assert (starts = []) as ->.
    { destruct starts as [|e starts]; [done|].
      apply Forall_cons in Hstarts as [(_ & [i Hi] & _) _].
      assert (i ∈ started_indices (e :: starts)) as Hin.
      { unfold started_indices. simpl. rewrite Hi. left. }
      apply Hks in Hin. rewrite map_to_list_empty in Hin. by apply elem_of_nil in Hin. }
    rewrite Hcontent2, Hcontent1. simpl. by rewrite Hnil0 by auto.
  - apply list_fmap_ext. intros i k Hk.
    apply (block_value r1 r2); [done|done|].
    apply Hks. by eapply list_elem_of_lookup_2.
Qed.

Lemma final_content_in_index_order_witness :
  ∃ r' errs ks,
    AddEvents NewResponseAccumulator sample_stream = (r', Return <$> errs) ∧
    length errs = length sample_stream ∧
    IsComplete r' = true ∧
    StronglySorted Z.lt ks ∧
    (∀ k, k ∈ ks ↔ k ∈ started_indices sample_starts) ∧
    final_content r' = Some (block_of sample_starts sample_deltas <$> ks).
Proof.
  apply (final_content_in_index_order
           (message_start_event sample_snapshot None) sample_snapshot
           sample_starts sample_deltas (bare_event EventTypeMessageStop)).
  - reflexivity.
  - reflexivity.
  - unfold sample_starts.
    repeat (apply Forall_cons_2; [by (repeat split; eexists)|]). apply Forall_nil_2.
  - unfold sample_deltas.
    repeat (apply Forall_cons_2; [reflexivity|]). apply Forall_nil_2.
  - reflexivity.
  - discriminate.
Defined.

(** The sample stream, run: index 2 comes before index 5 although it started
    later, the rejected input-JSON delta leaves no trace, and no entry stands
    for the unused indices. *)
Example sample_stream_content :
  final_content (AddEvents NewResponseAccumulator sample_stream).1 =
    Some [Some (Text (mkTextContent "Hello, " None []));
          Some (Text (mkTextContent "world!" None []))].
Proof. by vm_compute. Qed.

(** ** The repository's unit tests of the accumulator, and the scenario of
       the specification *)

Example TestNewResponseAccumulator :
  IsComplete NewResponseAccumulator = false ∧
  (ResponseAccumulator_Response NewResponseAccumulator).2 = None ∧
  ResponseAccumulator_Usage NewResponseAccumulator = None.
Proof. by vm_compute. Qed.

Example TestResponseAccumulator_AddEvent_MessageStart :
  let e := message_start_event
             (test_snapshot [Some (Text (mkTextContent "" None []))]) None in
  (AddEvent NewResponseAccumulator e).2 = Return None ∧
  Response_ID <$> (ResponseAccumulator_Response (AddEvent NewResponseAccumulator e).1).2 =
    Some "msg_123" ∧
  Response_Role <$> (ResponseAccumulator_Response (AddEvent NewResponseAccumulator e).1).2 =
    Some Assistant.
Proof. by vm_compute. Qed.

Example TestResponseAccumulator_AddEvent_ContentBlockStart :
  let r := AddEvents NewResponseAccumulator
             [message_start_event (test_snapshot []) None; start_event 0 ContentTypeText ""] in
  r.2 = [Return None; Return None] ∧
  (length ∘ Response_Content) <$> (ResponseAccumulator_Response r.1).2 = Some 1%nat.
Proof. by vm_compute. Qed.

Example TestResponseAccumulator_AddEvent_MessageStop :
  let r := AddEvents NewResponseAccumulator
             [message_start_event (test_snapshot []) None; bare_event EventTypeMessageStop] in
  r.2 = [Return None; Return None] ∧ IsComplete r.1 = true.
Proof. by vm_compute. Qed.

Example scenario :
  let r := AddEvents NewResponseAccumulator
             [message_start_event sample_snapshot None;
              start_event 0 ContentTypeText "";
              delta_event 0 EventDeltaTypeText "Hi";
              stop_delta_event "end_turn" "";
              bare_event EventTypeMessageStop] in
  IsComplete r.1 = true ∧
  final_content r.1 = Some [Some (Text (mkTextContent "Hi" None []))] ∧
  Response_StopReason <$> response r.1 = Some "end_turn".
Proof. by vm_compute. Qed.

(** A block that was handed out by [Response()] is the block later deltas
    write to: the content read after the delta shows the new text although
    the content slice itself was built before. *)
Example content_slice_shares_blocks :
  let r1 := (AddEvents NewResponseAccumulator
               [message_start_event sample_snapshot None;
                start_event 0 ContentTypeText "Hel"]).1 in
  let r2 := (ResponseAccumulator_Response r1).1 in
  let r3 := (AddEvent r2 (delta_event 0 EventDeltaTypeText "lo")).1 in
  final_content r2 = Some [Some (Text (mkTextContent "Hel" None []))] ∧
  Response_Content <$> response r3 = Response_Content <$> response r2 ∧
  final_content r3 = Some [Some (Text (mkTextContent "Hello" None []))].
Proof. by vm_compute. Qed.

(** * The SSE reader *)

Section ServerSentEventsReader_facts.
Context {T : Type}.
Variable zero : T.
Variable Unmarshal : string → T + string.
Variable TrimSpace : string → string.

Lemma NextLoop_noise line rest ending err callback :
  let_through callback line → noise TrimSpace line →
  NextLoop zero Unmarshal TrimSpace (line :: rest) ending err callback =
    NextLoop zero Unmarshal TrimSpace rest ending err callback.
Proof using Type.
  unfold let_through, noise, blank, payload. intros Hcb Hnoise. simpl.
  rewrite Hcb. case_decide as Hblank; [done|].
  destruct Hnoise as [Hb | [Hdone Hbrace]]; [done|].
  case_decide; [done|]. by rewrite Hbrace.
Qed.

Lemma NextLoop_skip skipped lines ending err callback :
  Forall (let_through callback) skipped → Forall (noise TrimSpace) skipped →
  NextLoop zero Unmarshal TrimSpace (skipped ++ lines) ending err callback =
    NextLoop zero Unmarshal TrimSpace lines ending err callback.
Proof using Type.
  induction skipped as [|line skipped IH]; intros Hcb Hnoise; [done|].
  apply Forall_cons in Hcb as [? ?]. apply Forall_cons in Hnoise as [? ?].
  simpl app. rewrite NextLoop_noise by done. by apply IH.
Qed.

Lemma NextLoop_terminator line rest ending err callback :
  let_through callback line → terminator TrimSpace line →
  NextLoop zero Unmarshal TrimSpace (line :: rest) ending err callback =
    ((zero, false), mkServerSentEventsReader rest ending err callback).
Proof using Type.
  unfold let_through, terminator, blank, payload.
  intros Hcb [Hblank Hdone]. simpl.
  rewrite Hcb. case_decide; [done|]. by case_decide.
Qed.

Lemma NextLoop_json line rest ending err callback :
  let_through callback line → json_line TrimSpace line →
  NextLoop zero Unmarshal TrimSpace (line :: rest) ending err callback =
    match Unmarshal (payload TrimSpace line) with
    | inr e => ((zero, false), mkServerSentEventsReader rest ending (Some e) callback)
    | inl event => ((event, true), mkServerSentEventsReader rest ending err callback)
    end.
Proof using Type.
  unfold let_through, json_line, blank, payload.
  intros Hcb (Hblank & Hdone & Hbrace). simpl.
  rewrite Hcb. case_decide; [done|]. case_decide; [done|]. by rewrite Hbrace.
Qed.

(** C5.  Let a reader without a pending error have, ahead of it, lines that
    are protocol noise (blank, or not starting with an opening brace once an
    optional "data: " prefix and the surrounding space are removed), which
    its callback, if any, lets through.  [Next] skips them all, and then:
    - at the end of the underlying stream it returns false and [Err()] is
      nil;
    - on a [DONE] line it returns false and [Err()] is nil;
    - on a line that starts with a brace and fails to decode it returns
      false and [Err()] is the decode error;
    - on a line that starts with a brace and decodes it returns the event
      and true. *)
Theorem Next_lines (s : ServerSentEventsReader) (skipped : list string) :
  ServerSentEventsReader_Err s = None →
  Forall (noise TrimSpace) skipped →
  Forall (let_through (sseCallback s)) skipped →
  (reader_lines s = skipped → reader_end s = None →
     (ServerSentEventsReader_Next zero Unmarshal TrimSpace s).1 = (zero, false) ∧
     ServerSentEventsReader_Err (ServerSentEventsReader_Next zero Unmarshal TrimSpace s).2 = None) ∧
  (∀ line rest, reader_lines s = skipped ++ line :: rest →
     let_through (sseCallback s) line → terminator TrimSpace line →
     (ServerSentEventsReader_Next zero Unmarshal TrimSpace s).1 = (zero, false) ∧
     ServerSentEventsReader_Err (ServerSentEventsReader_Next zero Unmarshal TrimSpace s).2 = None ∧
     reader_lines (ServerSentEventsReader_Next zero Unmarshal TrimSpace s).2 = rest) ∧
  (∀ line rest e, reader_lines s = skipped ++ line :: rest →
     let_through (sseCallback s) line → json_line TrimSpace line →
     Unmarshal (payload TrimSpace line) = inr e →
     (ServerSentEventsReader_Next zero Unmarshal TrimSpace s).1 = (zero, false) ∧
     ServerSentEventsReader_Err (ServerSentEventsReader_Next zero Unmarshal TrimSpace s).2 = Some e ∧
     reader_lines (ServerSentEventsReader_Next zero Unmarshal TrimSpace s).2 = rest) ∧
  (∀ line rest event, reader_lines s = skipped ++ line :: rest →
     let_through (sseCallback s) line → json_line TrimSpace line →
     Unmarshal (payload TrimSpace line) = inl event →
     (ServerSentEventsReader_Next zero Unmarshal TrimSpace s).1 = (event, true) ∧
     ServerSentEventsReader_Err (ServerSentEventsReader_Next zero Unmarshal TrimSpace s).2 = None ∧
     reader_lines (ServerSentEventsReader_Next zero Unmarshal TrimSpace s).2 = rest).
Proof using Type.
  unfold ServerSentEventsReader_Err, ServerSentEventsReader_Next.
  intros Herr Hnoise Hcb. split; [|split; [|split]].
  - intros Hlines Hend. rewrite Hlines, Hend.
    rewrite <- (app_nil_r skipped), NextLoop_skip by done. by simpl.
  - intros line rest Hlines Hline Hterm.
    by rewrite Hlines, NextLoop_skip, NextLoop_terminator by done.
  - intros line rest e Hlines Hline Hjson He.
    by rewrite Hlines, NextLoop_skip, NextLoop_json, He by done.
  - intros line rest event Hlines Hline Hjson He.
    by rewrite Hlines, NextLoop_skip, NextLoop_json, He by done.
Qed.
End ServerSentEventsReader_facts.

Lemma Next_lines_witness :
  (ServerSentEventsReader_Next (bare_event "") sample_Unmarshal TrimSpaceASCII
     (sample_reader ("data: {" +:+ String "010" "") ["{}" +:+ String "010" ""])).1 =
    (bare_event "", false) ∧
  ServerSentEventsReader_Err
    (ServerSentEventsReader_Next (bare_event "") sample_Unmarshal TrimSpaceASCII
       (sample_reader ("data: {" +:+ String "010" "") ["{}" +:+ String "010" ""])).2 =
    Some "unexpected end of JSON input" ∧
  reader_lines
    (ServerSentEventsReader_Next (bare_event "") sample_Unmarshal TrimSpaceASCII
       (sample_reader ("data: {" +:+ String "010" "") ["{}" +:+ String "010" ""])).2 =
    ["{}" +:+ String "010" ""].
Proof.
  destruct (Next_lines (bare_event "") sample_Unmarshal TrimSpaceASCII
              (sample_reader ("data: {" +:+ String "010" "") ["{}" +:+ String "010" ""])
              sample_noise) as (_ & _ & Hfail & _).
  - reflexivity.
  - unfold sample_noise.
    repeat (apply Forall_cons_2;
            [first [by left; vm_compute | by right; vm_compute]|]).
    apply Forall_nil_2.
  - unfold sample_noise. repeat (apply Forall_cons_2; [reflexivity|]). apply Forall_nil_2.
  - apply (Hfail ("data: {" +:+ String "010" "") ["{}" +:+ String "010" ""]
             "unexpected end of JSON input").
    + reflexivity.
    + reflexivity.
    + by vm_compute.
    + reflexivity.
Defined.

(** The sample reader on raw bytes: noise, an event, the terminator, and an
    unterminated tail that is never looked at. *)
Example sample_bytes_events :
  let s := NewServerSentEventsReader
             ("event: ping" +:+ String "010" "" +:+ "data: {}" +:+ String "010" "" +:+
              String "010" "" +:+ "data: [DONE]" +:+ String "010" "" +:+ "data: {") None in
  let n1 := ServerSentEventsReader_Next (bare_event "x") sample_Unmarshal TrimSpaceASCII s in
  let n2 := ServerSentEventsReader_Next (bare_event "x") sample_Unmarshal TrimSpaceASCII n1.2 in
  let n3 := ServerSentEventsReader_Next (bare_event "x") sample_Unmarshal TrimSpaceASCII n2.2 in
  n1.1 = (bare_event "", true) ∧ n2.1 = (bare_event "x", false) ∧
  ServerSentEventsReader_Err n2.2 = None ∧
  n3.1 = (bare_event "x", false) ∧ ServerSentEventsReader_Err n3.2 = None.
Proof. by vm_compute. Qed.

(** * The stream iterator *)

(** [processEvent] reads and writes the pending prefill only. *)
Lemma processEvent_frame s e :
  ∃ p, (processEvent s e).1 = set_prefill s p.
Proof.
  unfold processEvent. repeat case_match; simpl; try (by exists ""); exists (prefill s);
    by destruct s.
Qed.

Lemma processEvent_ext s1 s2 e :
  prefill s1 = prefill s2 → prefillClosingTag s1 = prefillClosingTag s2 →
  (processEvent s1 e).2 = (processEvent s2 e).2 ∧
  prefill (processEvent s1 e).1 = prefill (processEvent s2 e).1 ∧
  prefillClosingTag (processEvent s1 e).1 = prefillClosingTag (processEvent s2 e).1.
Proof.
  intros Hp Ht. unfold processEvent. rewrite Hp, Ht.
  repeat case_match; simpl; try done; naive_solver.
Qed.

Lemma surface_ext events : ∀ s1 s2,
  prefill s1 = prefill s2 → prefillClosingTag s1 = prefillClosingTag s2 →
  surface s1 events = surface s2 events.
Proof.
  induction events as [|e events IH]; intros s1 s2 Hp Ht; [done|]. simpl.
  destruct (processEvent_ext s1 s2 e Hp Ht) as (Ho & Hp' & Ht').
  destruct (processEvent s1 e) as [s1' o1], (processEvent s2 e) as [s2' o2]. simpl in *.
  subst o2. rewrite (IH s1' s2' Hp' Ht'). done.
Qed.

(** With enough fuel, pulling the iterator dry yields what [processEvent]
    makes of the reader's events. *)
Lemma pull_surface events : ∀ fuel s,
  reader_events s = events → (length events < fuel)%nat →
  pull fuel s = surface s events.
Proof.
  induction events as [|e events IH]; intros fuel s Hev Hfuel.
  - destruct fuel; [simpl in Hfuel; lia|]. simpl.
    unfold StreamIterator_Next. by rewrite Hev.
  - destruct fuel as [|fuel]; [simpl in Hfuel; lia|]. simpl in Hfuel.
    cbn [pull surface]. unfold StreamIterator_Next. rewrite Hev. cbn [StreamIterator_NextLoop].
    set (s1 := mkStreamIterator events _ _ _ _ _ _).
    destruct (processEvent_ext s1 s e eq_refl eq_refl) as (Ho & Hp & Ht).
    destruct (processEvent_frame s1 e) as [p Hframe].
    destruct (processEvent s1 e) as [s2 o2], (processEvent s e) as [s' o]. simpl in *.
    subst o2 s2. destruct o as [e'|].
    + simpl. f_equal. rewrite (IH fuel); [by apply surface_ext|done|lia].
    + change (StreamIterator_NextLoop events (set_prefill s1 p))
        with (StreamIterator_Next (set_prefill s1 p)).
      change (pull (S fuel) (set_prefill s1 p) = surface s' events).
      rewrite (IH (S fuel)); [by apply surface_ext|done|lia].
Qed.

Lemma processEvent_cleared s e :
  prefill s = "" →
  processEvent s e = (s, if decide (Event_Type e = "") then None else Some e).
Proof.
  intros Hp. unfold processEvent. case_decide; [done|].
  case_decide as Hpending; [|done]. by destruct Hpending.
Qed.

Lemma processEvent_not_injectable s e :
  ¬ injectable (prefillClosingTag s) e →
  processEvent s e = (s, if decide (Event_Type e = "") then None else Some e).
Proof.
  intros Hnot. unfold processEvent. case_decide; [done|].
  case_decide as Hpending; [|done]. destruct Hpending as [Hp Hty].
  destruct (Event_ContentBlock e) as [cb|] eqn:Hcb; [|done].
  case_decide as Htext; [|done].
  destruct (bool_decide _ || Contains _ _) eqn:Hor; [|done].
  destruct Hnot. split; [split; [done|by exists cb]|].
  unfold fragment. rewrite Hcb. simpl.
  apply orb_true_iff in Hor as [Htag%bool_decide_eq_true | Hc]; [by left | by right].
Qed.

Lemma processEvent_injectable s e :
  prefill s ≠ "" → injectable (prefillClosingTag s) e →
  processEvent s e = (set_prefill s "", Some (with_prefill (prefill s) e)).
Proof.
  intros Hp [[Hty (cb & Hcb & Htext)] Htag]. unfold processEvent.
  case_decide as Hempty; [by rewrite Hty in Hempty|].
  case_decide as Hpending; [|by destruct Hpending]. rewrite Hcb.
  case_decide; [|done].
  unfold fragment in Htag. rewrite Hcb in Htag. simpl in Htag.
  destruct Htag as [-> | ->]; [done|]. by rewrite orb_true_r.
Qed.

Lemma surface_visible s events :
  prefill s = "" ∨ Forall (λ e, ¬ injectable (prefillClosingTag s) e) events →
  surface s events = visible events.
Proof.
  unfold visible. induction events as [|e events IH]; intros H; [done|].
  simpl. rewrite filter_cons.
  assert (processEvent s e = (s, if decide (Event_Type e = "") then None else Some e)) as ->.
  { destruct H as [Hp | [He _]%Forall_cons];
      [by apply processEvent_cleared | by apply processEvent_not_injectable]. }
  assert (surface s events = filter (λ e, Event_Type e ≠ "") events) as Hrest.
  { apply IH. destruct H as [Hp | [_ Hall]%Forall_cons]; [by left | by right]. }
  repeat case_decide; try done; by rewrite Hrest.
Qed.

Lemma surface_inject s before e after :
  prefill s ≠ "" →
  Forall (λ e, ¬ injectable (prefillClosingTag s) e) before →
  injectable (prefillClosingTag s) e →
  surface s (before ++ e :: after) =
    visible before ++ with_prefill (prefill s) e :: visible after.
Proof.
  intros Hp Hbefore He. induction before as [|b before IH]; simpl.
  - rewrite processEvent_injectable by done. f_equal. by apply surface_visible; left.
  - apply Forall_cons in Hbefore as [Hb Hbefore].
    rewrite processEvent_not_injectable by done.
    unfold visible at 1. rewrite filter_cons. fold (visible before).
    repeat case_decide; try done; by rewrite IH.
Qed.

Lemma fragment_with_prefill p e :
  text_start e → fragment (with_prefill p e) = p +:+ fragment e.
Proof.
  intros [_ (cb & Hcb & _)]. unfold fragment, with_prefill. by rewrite Hcb.
Qed.

(** C6.  An iterator with a pending prefill and no closing tag, pulled until
    its reader is exhausted: the first [content_block_start] event of a text
    block is surfaced with the prefill prepended to its text, and every
    other event with a type, the later text-block starts included, is
    surfaced as the reader yielded it; when the stream has no such event,
    no event is modified. *)
Theorem prefill_exactly_once (s : StreamIterator) (fuel : nat) :
  prefill s ≠ "" →
  prefillClosingTag s = "" →
  (length (reader_events s) < fuel)%nat →
  (∀ before e after,
     reader_events s = before ++ e :: after →
     Forall (λ e, ¬ text_start e) before → text_start e →
     pull fuel s = visible before ++ with_prefill (prefill s) e :: visible after ∧
     fragment (with_prefill (prefill s) e) = prefill s +:+ fragment e) ∧
  (Forall (λ e, ¬ text_start e) (reader_events s) →
     pull fuel s = visible (reader_events s)).
Proof.
  intros Hp Htag Hfuel. split.
  - intros before e after Hev Hbefore He. split; [|by apply fragment_with_prefill].
    rewrite (pull_surface (reader_events s)) by done. rewrite Hev.
    apply surface_inject; [done| |].
    + eapply Forall_impl; [exact Hbefore|]. intros x Hx [Hstart _]. by apply Hx.
    + split; [done|]. by left.
  - intros Hnone. rewrite (pull_surface (reader_events s)) by done.
    apply surface_visible. right.
    eapply Forall_impl; [exact Hnone|]. intros x Hx [Hstart _]. by apply Hx.
Qed.

Lemma prefill_exactly_once_witness :
  pull 6 (sample_iterator "" sample_events_untagged) =
    [bare_event EventTypeMessageStart; start_event 0 ContentTypeText "PREFIX: Hello";
     bare_event EventTypePing; start_event 1 ContentTypeText "again"].
Proof.
  destruct (prefill_exactly_once (sample_iterator "" sample_events_untagged) 6)
    as [Hfirst _]; [discriminate | reflexivity | simpl; lia |].
  destruct (Hfirst [bare_event ""; bare_event EventTypeMessageStart]
              (start_event 0 ContentTypeText "Hello")
              [bare_event EventTypePing; start_event 1 ContentTypeText "again"])
    as [Hpull _].
  - reflexivity.
  - repeat (apply Forall_cons_2; [by intros [? _]|]). apply Forall_nil_2.
  - split; [reflexivity|]. eexists; split; reflexivity.
  - exact Hpull.
Defined.

(** C7.  An iterator with a pending prefill and a closing tag: the start of
    a text block whose text does not contain the tag is surfaced as it is
    and the prefill stays pending; pulled until its reader is exhausted, the
    iterator prepends the prefill to the first text-block start whose text
    contains the tag and to no event before it (nor after it); when no
    text-block start contains the tag, no event is modified. *)
Theorem prefill_waits_for_closing_tag (s : StreamIterator) (fuel : nat) :
  prefill s ≠ "" →
  prefillClosingTag s ≠ "" →
  (length (reader_events s) < fuel)%nat →
  (∀ e, text_start e → Contains (fragment e) (prefillClosingTag s) = false →
     processEvent s e = (s, Some e)) ∧
  (∀ before e after,
     reader_events s = before ++ e :: after →
     Forall (λ e, text_start e → Contains (fragment e) (prefillClosingTag s) = false) before →
     text_start e → Contains (fragment e) (prefillClosingTag s) = true →
     pull fuel s = visible before ++ with_prefill (prefill s) e :: visible after ∧
     fragment (with_prefill (prefill s) e) = prefill s +:+ fragment e) ∧
  (Forall (λ e, text_start e → Contains (fragment e) (prefillClosingTag s) = false)
     (reader_events s) →
   pull fuel s = visible (reader_events s)).
Proof.
  intros Hp Htag Hfuel.
  assert (∀ e, (text_start e → Contains (fragment e) (prefillClosingTag s) = false) →
               ¬ injectable (prefillClosingTag s) e) as Hnot.
  { intros e He [Hstart [Hempty | Hc]]; [done|]. rewrite He in Hc; done. }
  split; [|split].
  - intros e He Hc. rewrite processEvent_not_injectable by (apply Hnot; done).
    destruct He as [Hty _]. case_decide as Hempty; [by rewrite Hty in Hempty|done].
  - intros before e after Hev Hbefore He Hc. split; [|by apply fragment_with_prefill].
    rewrite (pull_surface (reader_events s)) by done. rewrite Hev.
    apply surface_inject; [done| |].
    + eapply Forall_impl; [exact Hbefore|]. intros x Hx. by apply Hnot.
    + split; [done|]. by right.
  - intros Hnone. rewrite (pull_surface (reader_events s)) by done.
    apply surface_visible. right.
    eapply Forall_impl; [exact Hnone|]. intros x Hx. by apply Hnot.
Qed.

Lemma prefill_waits_for_closing_tag_witness :
  processEvent (sample_iterator "</r>" sample_events_tagged)
    (start_event 0 ContentTypeText "abc") =
    (sample_iterator "</r>" sample_events_tagged, Some (start_event 0 ContentTypeText "abc")) ∧
  pull 4 (sample_iterator "</r>" sample_events_tagged) =
    [start_event 0 ContentTypeText "abc"; start_event 1 ContentTypeText "PREFIX: x</r>y";
     start_event 2 ContentTypeText "z</r>"].
Proof.
  destruct (prefill_waits_for_closing_tag (sample_iterator "</r>" sample_events_tagged) 4)
    as (Hdefer & Hinject & _); [discriminate | discriminate | simpl; lia |].
  split.
  - apply Hdefer; [|reflexivity]. split; [reflexivity|]. eexists; split; reflexivity.
  - destruct (Hinject [start_event 0 ContentTypeText "abc"]
                (start_event 1 ContentTypeText "x</r>y")
                [start_event 2 ContentTypeText "z</r>"]) as [Hpull _].
    + reflexivity.
    + apply Forall_cons_2; [intros _; reflexivity | apply Forall_nil_2].
    + split; [reflexivity|]. eexists; split; reflexivity.
    + reflexivity.
    + exact Hpull.
Defined.

(** * Reordering *)

Lemma separate_foldl content : ∀ toolUseBlocks otherBlocks,
  foldl (λ '(toolUseBlocks, otherBlocks) block,
           if decide (Content_Type block = ContentTypeToolUse)
           then (toolUseBlocks ++ [block], otherBlocks)
           else (toolUseBlocks, otherBlocks ++ [block]))
        (toolUseBlocks, otherBlocks) content =
    (toolUseBlocks ++ filter (λ b, Content_Type b = ContentTypeToolUse) content,
     otherBlocks ++ filter (λ b, Content_Type b ≠ ContentTypeToolUse) content).
Proof.
  induction content as [|block content IH]; intros tool other; simpl.
  - by rewrite !app_nil_r.
  - rewrite !filter_cons. case_decide as Hty; rewrite IH.
    + rewrite decide_False by auto. by rewrite <- app_assoc.
    + rewrite decide_True by auto. by rewrite <- app_assoc.
Qed.

Lemma separate_filter content :
  separate content =
    (filter (λ b, Content_Type b = ContentTypeToolUse) content,
     filter (λ b, Content_Type b ≠ ContentTypeToolUse) content).
Proof. unfold separate. by rewrite separate_foldl. Qed.

Lemma filter_nonempty {A} (P : A → Prop) `{∀ x, Decision (P x)} (l : list A) :
  (0 < length (filter P l))%nat ↔ ∃ x, x ∈ l ∧ P x.
Proof.
  split.
  - destruct (filter P l) as [|x l'] eqn:Hf; simpl; [lia|]. intros _.
    assert (x ∈ filter P l) as Hx by (rewrite Hf; left).
    apply list_elem_of_filter in Hx as [? ?]. by exists x.
  - intros (x & Hx & HP).
    assert (x ∈ filter P l) as Hin by by apply list_elem_of_filter.
    destruct (filter P l); [by apply elem_of_nil in Hin | simpl; lia].
Qed.

Lemma reorderMessage_spec msg :
  Message_ID (reorderMessage msg) = Message_ID msg ∧
  Message_Role (reorderMessage msg) = Message_Role msg ∧
  (Message_Role msg = Assistant → (2 ≤ length (Message_Content msg))%nat →
   mixed (Message_Content msg) →
   Message_Content (reorderMessage msg) =
     filter (λ b, Content_Type b ≠ ContentTypeToolUse) (Message_Content msg) ++
     filter (λ b, Content_Type b = ContentTypeToolUse) (Message_Content msg)) ∧
  (Message_Role msg ≠ Assistant ∨ (length (Message_Content msg) < 2)%nat ∨
   ¬ mixed (Message_Content msg) →
   reorderMessage msg = msg).
Proof.
  unfold reorderMessage, mixed. rewrite separate_filter.
  rewrite <- !filter_nonempty.
  repeat case_decide; simpl; repeat split; try done;
    intros; first [tauto | lia | exfalso; intuition lia].
Qed.

(** C9.  [reorderMessageContent] keeps the number, the identifiers and the
    roles of the messages.  An assistant message with at least two blocks,
    among them a tool-use block and a block of another type, gets as content
    its non-tool-use blocks in their former order followed by its tool-use
    blocks in their former order.  Every other message (not from the
    assistant, or with fewer than two blocks, or with blocks all of tool-use
    type or none of it) is left as it was. *)
Theorem reorderMessageContent_spec (messages : list Message) :
  length (reorderMessageContent messages) = length messages ∧
  ∀ i msg, messages !! i = Some msg →
    ∃ msg', reorderMessageContent messages !! i = Some msg' ∧
      Message_ID msg' = Message_ID msg ∧
      Message_Role msg' = Message_Role msg ∧
      (Message_Role msg = Assistant → (2 ≤ length (Message_Content msg))%nat →
       mixed (Message_Content msg) →
       Message_Content msg' =
         filter (λ b, Content_Type b ≠ ContentTypeToolUse) (Message_Content msg) ++
         filter (λ b, Content_Type b = ContentTypeToolUse) (Message_Content msg)) ∧
      (Message_Role msg ≠ Assistant ∨ (length (Message_Content msg) < 2)%nat ∨
       ¬ mixed (Message_Content msg) →
       msg' = msg).
Proof.
  unfold reorderMessageContent. split; [apply length_fmap|].
  intros i msg Hi. exists (reorderMessage msg). split.
  - by rewrite list_lookup_fmap, Hi.
  - apply reorderMessage_spec.
Qed.

Lemma reorderMessageContent_spec_witness :
  reorderMessageContent sample_messages !! 0%nat =
    Some (mkMessage "" User [sample_tool "tool0"; sample_text "Hello"]) ∧
  ∃ msg', reorderMessageContent sample_messages !! 1%nat = Some msg' ∧
    Message_Content msg' =
      [sample_text "Here is the result:"; sample_text "Additional text";
       sample_tool "tool1"; sample_tool "tool2"].
Proof.
  destruct (reorderMessageContent_spec sample_messages) as [_ Hspec]. split.
  - destruct (Hspec 0%nat (mkMessage "" User [sample_tool "tool0"; sample_text "Hello"]) eq_refl)
      as (msg' & Hlookup & _ & _ & _ & Hsame).
    rewrite Hlookup, Hsame; [reflexivity|]. left. discriminate.
  - destruct (Hspec 1%nat
                (mkMessage "" Assistant
                   [sample_tool "tool1"; sample_text "Here is the result:";
                    sample_tool "tool2"; sample_text "Additional text"]) eq_refl)
      as (msg' & Hlookup & _ & _ & Hreorder & _).
    exists msg'. split; [exact Hlookup|].
    rewrite Hreorder; [reflexivity | reflexivity | simpl; lia |].
    split.
    + exists (sample_tool "tool1"). split; [left | reflexivity].
    + exists (sample_text "Additional text"). split; [|discriminate].
      do 3 right. left.
Defined.

(** The remaining unit tests of [reorderMessageContent]. *)
Example TestReorderMessageContent_NoMessages : reorderMessageContent [] = [].
Proof. reflexivity. Qed.

Example TestReorderMessageContent_AssistantMessageSingleBlock :
  reorderMessageContent [mkMessage "" Assistant [sample_text "Hello"]] =
    [mkMessage "" Assistant [sample_text "Hello"]].
Proof. reflexivity. Qed.

Example TestReorderMessageContent_AssistantMessageNoToolUse :
  reorderMessageContent
    [mkMessage "" Assistant [sample_text "First text"; sample_text "Second text"]] =
    [mkMessage "" Assistant [sample_text "First text"; sample_text "Second text"]].
Proof. reflexivity. Qed.

Example TestReorderMessageContent_AssistantMessageOnlyToolUse :
  reorderMessageContent
    [mkMessage "" Assistant [sample_tool "tool1"; sample_tool "tool2"]] =
    [mkMessage "" Assistant [sample_tool "tool1"; sample_tool "tool2"]].
Proof. reflexivity. Qed.

(** * Further properties of the accumulator *)

(** X1.  Whatever the event, a call of [AddEvent] that returns an error has
    changed nothing: the accumulator is exactly as it was before the call. *)
Theorem AddEvent_error_is_atomic (r r' : ResponseAccumulator) (e : Event) (msg : string) :
  AddEvent r e = (r', Return (Some msg)) → r' = r.
Proof. apply AddEvent_error_unchanged. Qed.

Lemma AddEvent_error_is_atomic_witness :
  (AddEvent hello_accumulator (delta_event 7 EventDeltaTypeText "x")).1 = hello_accumulator.
Proof.
  apply (AddEvent_error_is_atomic hello_accumulator _ (delta_event 7 EventDeltaTypeText "x")
           "content block not found for index").
  reflexivity.
Defined.

(** X2.  [AddEvent] panics exactly when no [message_start] has been
    processed, the event carries usage counters, and its type is none of
    [message_start], [content_block_start], [content_block_delta] and
    [message_delta] (so also for an event type the library does not know).
    Once a response is there it stays: a started accumulator never panics
    and never goes back to the empty state. *)
Theorem AddEvent_panics_iff (r : ResponseAccumulator) (e : Event) :
  ((AddEvent r e).2 = Panic ↔
     response r = None ∧ is_Some (Event_Usage e) ∧
     Event_Type e ≠ EventTypeMessageStart ∧ ¬ guarded (Event_Type e)) ∧
  (is_Some (response r) → is_Some (response (AddEvent r e).1)).
Proof.
  split; [split|].
  - unfold AddEvent. destruct (dispatch r e) as [r1 [err|]] eqn:Hd; [done|].
    pose proof (dispatch_inv _ _ _ _ Hd) as [Hty Hresp].
    unfold updateUsage. destruct (Event_Usage e) as [u|] eqn:Hu; [|done].
    destruct (response r1) as [resp1|] eqn:Hr1; [done|]. intros _.
    destruct (response r) as [resp|] eqn:Hr.
    { destruct (Hresp resp eq_refl) as (? & ? & _). congruence. }
    repeat split; [by eexists|done|].
    unfold dispatch, guarded in *. intros [H | [H | H]]; rewrite H in Hd; simpl in Hd.
    + unfold caseContentBlockStart in Hd. by rewrite Hr in Hd.
    + unfold caseContentBlockDelta in Hd. by rewrite Hr in Hd.
    + unfold caseMessageDelta in Hd. by rewrite Hr in Hd.
  - intros (Hr & [u Hu] & Hstart & Hguard). unfold AddEvent, guarded in *.
    destruct (decide (Event_Type e = EventTypeMessageStop)) as [Hstop|Hstop].
    + rewrite dispatch_MessageStop by done. unfold caseMessageStop.
      rewrite (updateUsage_nil_response _ _ u); [done| |done].
      unfold finalizeContent. simpl. by rewrite Hr.
    + rewrite dispatch_unhandled by (unfold unhandled; tauto).
      by rewrite (updateUsage_nil_response _ _ u).
  - intros [resp Hr]. unfold AddEvent.
    destruct (dispatch r e) as [r1 [[msg|]|]] eqn:Hd;
      pose proof (dispatch_inv _ _ _ _ Hd) as Hinv; simpl in *.
    + subst r1. by exists resp.
    + unfold dispatch in Hd. rewrite Hinv in Hd. simpl in Hd. unfold caseMessageStart in Hd.
      destruct (Event_Message e); [|done]. destruct (adopt _ _). by injection Hd as <-.
    + destruct Hinv as [_ Hinv]. destruct (Hinv resp Hr) as (resp1 & Hr1 & _).
      rewrite (updateUsage_started _ _ resp1) by done. by eexists.
Qed.

Lemma AddEvent_panics_iff_witness :
  (AddEvent NewResponseAccumulator (usage_event EventTypePing (mkUsage 1 2 0 0))).2 = Panic ∧
  (AddEvent NewResponseAccumulator
     (usage_event EventTypeContentBlockStart (mkUsage 1 2 0 0))).2 ≠ Panic.
Proof.
  split.
  - apply (AddEvent_panics_iff NewResponseAccumulator
             (usage_event EventTypePing (mkUsage 1 2 0 0))).
    split; [reflexivity|]. split; [by eexists|]. split; [discriminate|].
    intros [H|[H|H]]; discriminate H.
  - intros Hpanic.
    apply (AddEvent_panics_iff NewResponseAccumulator
             (usage_event EventTypeContentBlockStart (mkUsage 1 2 0 0))) in Hpanic
      as (_ & _ & _ & Hguarded).
    apply Hguarded. by left.
Defined.

(** X3.  The completion flag after a call is the flag before it or-ed with
    "the event is a [message_stop]": nothing ever resets it, not even a new
    [message_start], and only a [message_stop] sets it.  So after a run
    without panic, [IsComplete] tells whether the accumulator was complete
    before or a [message_stop] was among the events. *)
Theorem IsComplete_iff_message_stop (r : ResponseAccumulator) :
  (∀ e, IsComplete (AddEvent r e).1 = IsComplete r || is_message_stop e) ∧
  (∀ events r' errs, AddEvents r events = (r', Return <$> errs) →
     IsComplete r' = IsComplete r || existsb is_message_stop events).
Proof.
  assert (∀ r e, IsComplete (AddEvent r e).1 = IsComplete r || is_message_stop e) as Hstep.
  { clear r. intros r e. unfold IsComplete, is_message_stop, AddEvent.
    destruct (decide (Event_Type e = EventTypeMessageStop)) as [Hstop|Hstop].
    - rewrite dispatch_MessageStop, bool_decide_eq_true_2, orb_true_r by done.
      unfold caseMessageStop, updateUsage, finalizeContent. simpl.
      destruct (response r); repeat case_match; done.
    - rewrite bool_decide_eq_false_2, orb_false_r by done.
      destruct (dispatch r e) as [r1 o] eqn:Hd. 
      assert (complete r1 = complete r) as Hc.
      { unfold dispatch in Hd. repeat case_decide; try done.
        - unfold caseMessageStart in Hd. destruct (Event_Message e); [|by injection Hd as <-].
          destruct (adopt _ _). by injection Hd as <-.
        - unfold caseContentBlockStart in Hd.
          repeat case_match; by injection Hd as <-.
        - unfold caseContentBlockDelta in Hd.
          repeat case_match; by injection Hd as <-.
        - unfold caseMessageDelta in Hd.
          repeat case_match; by injection Hd as <-.
        - by injection Hd as <-. }
      destruct o as [err|]; [done|]. unfold updateUsage. by repeat case_match. }
  split; [apply Hstep|].
  intros events. revert r. induction events as [|e events IH]; intros r r' errs; simpl.
  - intros [= <- _]. by rewrite orb_false_r.
  - pose proof (Hstep r e) as He.
    destruct (AddEvent r e) as [r1 [err|]]; [|by destruct errs].
    destruct (AddEvents r1 events) as [r2 outs] eqn:Hrest.
    destruct errs as [|err' errs]; [done|]. intros [= -> _ ->].
    rewrite (IH r1 r' errs Hrest). simpl in He. rewrite He. by rewrite orb_assoc.
Qed.

(** ** The store along a run *)

Lemma adopt_spec cs : ∀ st st' ps,
  adopt st cs = (st', ps) →
  (∃ ext, st' = st ++ ext) ∧ deref st' <$> ps = cs.
Proof.
  induction cs as [|[c|] cs IH]; intros st st' ps; simpl.
  - intros [= <- <-]. split; [by exists []; rewrite app_nil_r|done].
  - destruct (adopt (st ++ [c]) cs) as [st1 ps1] eqn:Ha. intros [= <- <-].
    destruct (IH _ _ _ Ha) as [[ext ->] Hps]. split.
    + exists ([c] ++ ext). by rewrite app_assoc.
    + rewrite fmap_cons, Hps. f_equal. simpl.
      rewrite lookup_app_l by (rewrite length_app; simpl; lia).
      by rewrite lookup_app_r, Nat.sub_diag by lia.
  - destruct (adopt st cs) as [st1 ps1] eqn:Ha. intros [= <- <-].
    destruct (IH _ _ _ Ha) as [Hext Hps]. split; [done|]. by rewrite fmap_cons, Hps.
Qed.

Lemma well_formed_extend r r' ext :
  store r' = store r ++ ext → contentBlocks r' = contentBlocks r →
  well_formed r → well_formed r' ∧ blocks r' = blocks r.
Proof.
  intros Hst Hm [Hw1 Hw2]. split; [split|].
  - intros k p. rewrite Hst, Hm, length_app. intros H%Hw1. lia.
  - rewrite Hm. apply Hw2.
  - unfold blocks. rewrite Hst, Hm. apply map_fmap_ext.
    intros k [p|] Hk; [|done]. simpl. apply lookup_app_l. by eapply Hw1.
Qed.

Lemma well_formed_frame r r' :
  store r' = store r → contentBlocks r' = contentBlocks r →
  well_formed r → well_formed r' ∧ blocks r' = blocks r.
Proof.
  intros Hst Hm. apply (well_formed_extend r r' []); [by rewrite app_nil_r | done].
Qed.

Lemma updateUsage_frame r e :
  store (updateUsage r e).1 = store r ∧
  contentBlocks (updateUsage r e).1 = contentBlocks r ∧
  complete (updateUsage r e).1 = complete r.
Proof. unfold updateUsage. by repeat case_match. Qed.

(** A start event, indexed or not: the block goes under [start_index]. *)
Lemma AddEvent_start_any r resp e cb :
  response r = Some resp →
  well_formed r →
  Event_Type e = EventTypeContentBlockStart →
  Event_ContentBlock e = Some cb →
  ∃ r', AddEvent r e = (r', Return None) ∧
        well_formed r' ∧
        blocks r' = <[start_index r e := startContent cb]> (blocks r) ∧
        dom (contentBlocks r') = {[start_index r e]} ∪ dom (contentBlocks r) ∧
        complete r' = complete r ∧
        ∃ resp', response r' = Some resp' ∧ Response_Content resp' = Response_Content resp.
Proof.
  intros Hr Hwf Hty Hcb.
  set (e' := mkEvent (Event_Type e) (Some (start_index r e)) (Event_Message e)
               (Event_ContentBlock e) (Event_Delta e) (Event_Usage e)).
  assert (AddEvent r e = AddEvent r e') as ->.
  { unfold AddEvent. rewrite !dispatch_ContentBlockStart by done.
    unfold caseContentBlockStart, start_index. simpl. rewrite Hr, Hcb.
    destruct (alloc _ _). unfold updateUsage, start_index. simpl.
    by destruct (Event_Index e). }
  destruct (AddEvent_block_start r resp e' Hr Hwf)
    as (r' & Hstep & Hwf' & Hb & Hc & Hresp).
  { split; [done|]. split; [by eexists | by exists cb]. }
  exists r'. repeat (split; [done|]).
  split; [by rewrite Hb; unfold start_step; simpl; rewrite Hcb|].
  split; [|done].
  assert (dom (blocks r') = dom (contentBlocks r')) as <- by apply dom_fmap_L.
  rewrite Hb. unfold start_step. simpl. rewrite dom_insert_L. f_equal. apply dom_fmap_L.
Qed.

(** Every call keeps the map's pointers valid and unshared. *)
Lemma AddEvent_well_formed r e : well_formed r → well_formed (AddEvent r e).1.
Proof.
  intros Hwf.
  destruct (decide (Event_Type e = EventTypeMessageStart)) as [Hty|].
  { unfold AddEvent. rewrite dispatch_MessageStart by done. unfold caseMessageStart.
    destruct (Event_Message e) as [m|]; [|done].
    destruct (adopt _ _) as [st ps] eqn:Ha. simpl.
    destruct (adopt_spec _ _ _ _ Ha) as [[ext Hext] _].
    by eapply (well_formed_extend r _ ext). }
  destruct (decide (Event_Type e = EventTypeContentBlockStart)) as [Hty|].
  { destruct (response r) as [resp|] eqn:Hr, (Event_ContentBlock e) as [cb|] eqn:Hcb.
    - destruct (AddEvent_start_any r resp e cb) as (r' & -> & ? & _); done.
    - unfold AddEvent. rewrite dispatch_ContentBlockStart by done.
      unfold caseContentBlockStart. by rewrite Hr, Hcb.
    - unfold AddEvent. rewrite dispatch_ContentBlockStart by done.
      unfold caseContentBlockStart. by rewrite Hr.
    - unfold AddEvent. rewrite dispatch_ContentBlockStart by done.
      unfold caseContentBlockStart. by rewrite Hr. }
  destruct (decide (Event_Type e = EventTypeContentBlockDelta)) as [Hty|].
  { destruct (response r) as [resp|] eqn:Hr.
    - destruct (AddEvent_block_delta r resp e) as (r' & err & -> & ? & _); done.
    - unfold AddEvent. rewrite dispatch_ContentBlockDelta by done.
      unfold caseContentBlockDelta. by rewrite Hr. }
  destruct (updateUsage_frame (dispatch r e).1 e) as (Hst & Hm & _).
  assert (store (dispatch r e).1 = store r ∧ contentBlocks (dispatch r e).1 = contentBlocks r)
    as [Hst' Hm'].
  { unfold dispatch. repeat case_decide; try done.
    - unfold caseMessageDelta. by repeat case_match.
    - unfold caseMessageStop, finalizeContent. simpl. by repeat case_match. }
  unfold AddEvent. destruct (dispatch r e) as [r1 [err|]]; simpl in *.
  - by eapply well_formed_frame.
  - eapply well_formed_frame; [| |done]; congruence.
Qed.

Lemma AddEvents_well_formed events : ∀ r,
  well_formed r → well_formed (AddEvents r events).1.
Proof.
  induction events as [|e events IH]; intros r Hwf; [done|]. simpl.
  pose proof (AddEvent_well_formed r e Hwf) as Hwf1.
  destruct (AddEvent r e) as [r1 [err|]]; [|done].
  specialize (IH r1 Hwf1). by destruct (AddEvents r1 events).
Qed.

Lemma reachable_well_formed r : reachable r → well_formed r.
Proof.
  intros [events <-]. apply AddEvents_well_formed, well_formed_empty.
Qed.

(** X4.  In every accumulator a program can hold, no two indices share a
    block and every entry points to a live block; hence a
    [content_block_delta] event changes at most the block at its own index:
    the block under any other index reads as before, and no block is added
    to or removed from the map. *)
Theorem delta_touches_one_block (r : ResponseAccumulator) (e : Event) (i : Z) :
  reachable r →
  Event_Type e = EventTypeContentBlockDelta →
  Event_Index e = Some i →
  well_formed r ∧
  contentBlocks (AddEvent r e).1 = contentBlocks r ∧
  ∀ k, k ≠ i → blocks (AddEvent r e).1 !! k = blocks r !! k.
Proof.
  intros Hwf%reachable_well_formed Hty Hi. split; [done|].
  destruct (response r) as [resp|] eqn:Hr.
  - destruct (AddEvent_block_delta r resp e Hr Hwf Hty)
      as (r' & err & -> & _ & Hb & Hm & _).
    split; [done|]. intros k Hk. simpl. rewrite Hb. unfold delta_step. rewrite Hi.
    destruct (Event_Delta e); [|done]. by rewrite lookup_alter_ne.
  - unfold AddEvent. rewrite dispatch_ContentBlockDelta by done.
    unfold caseContentBlockDelta. by rewrite Hr.
Qed.

Lemma delta_touches_one_block_witness :
  blocks (AddEvent (AddEvents NewResponseAccumulator
                      (message_start_event sample_snapshot None :: sample_starts)).1
            (delta_event 2 EventDeltaTypeText "!")).1 !! 5 =
    Some (Some (Text (mkTextContent "world" None []))).
Proof.
  destruct (delta_touches_one_block
              (AddEvents NewResponseAccumulator
                 (message_start_event sample_snapshot None :: sample_starts)).1
              (delta_event 2 EventDeltaTypeText "!") 2) as (_ & _ & Hframe).
  - by eexists.
  - reflexivity.
  - reflexivity.
  - rewrite (Hframe 5) by lia. reflexivity.
Defined.

(** X5.  A [message_start] with a snapshot is accepted in every state; the
    response then reads exactly as the snapshot (its usage included: the
    event's own usage payload is not looked at), whereas the blocks of the
    map and the completion flag are left as they were: a second
    [message_start] does not start the accumulator afresh. *)
Theorem message_start_adopts_snapshot (r : ResponseAccumulator) (e : Event)
    (m : Response (option Content)) :
  reachable r →
  Event_Type e = EventTypeMessageStart →
  Event_Message e = Some m →
  (AddEvent r e).2 = Return None ∧
  response_value (AddEvent r e).1 = Some m ∧
  contentBlocks (AddEvent r e).1 = contentBlocks r ∧
  blocks (AddEvent r e).1 = blocks r ∧
  IsComplete (AddEvent r e).1 = IsComplete r.
Proof.
  intros Hwf%reachable_well_formed Hty Hm.
  unfold AddEvent. rewrite dispatch_MessageStart by done. unfold caseMessageStart.
  rewrite Hm. destruct (adopt _ _) as [st ps] eqn:Ha. simpl.
  destruct (adopt_spec _ _ _ _ Ha) as [[ext Hext] Hps].
  split; [done|]. split.
  - unfold response_value. simpl. rewrite Hps. by destruct m.
  - split; [done|]. split; [|done].
    by eapply (well_formed_extend r _ ext).
Qed.

Lemma message_start_adopts_snapshot_witness :
  response_value
    (AddEvent (AddEvents NewResponseAccumulator sample_stream).1
       (message_start_event second_snapshot (Some (mkUsage 1 1 1 1)))).1 =
    Some second_snapshot ∧
  IsComplete
    (AddEvent (AddEvents NewResponseAccumulator sample_stream).1
       (message_start_event second_snapshot (Some (mkUsage 1 1 1 1)))).1 = true ∧
  size (contentBlocks
          (AddEvent (AddEvents NewResponseAccumulator sample_stream).1
             (message_start_event second_snapshot (Some (mkUsage 1 1 1 1)))).1) = 2%nat.
Proof.
  destruct (message_start_adopts_snapshot
              (AddEvents NewResponseAccumulator sample_stream).1
              (message_start_event second_snapshot (Some (mkUsage 1 1 1 1)))
              second_snapshot) as (_ & Hvalue & Hmap & _ & Hcomplete).
  - by eexists.
  - reflexivity.
  - reflexivity.
  - split; [exact Hvalue|]. split.
    + rewrite Hcomplete. reflexivity.
    + rewrite Hmap. reflexivity.
Defined.

(** ** Start events without an index *)

Lemma StronglySorted_lt_NoDup (l : list Z) : StronglySorted Z.lt l → NoDup l.
Proof.
  induction 1 as [|x l Hs IH Hall]; constructor; [|done].
  intros Hx. eapply Forall_forall in Hall; [|done]. lia.
Qed.

Lemma StronglySorted_lt_unique (l1 l2 : list Z) :
  StronglySorted Z.lt l1 → StronglySorted Z.lt l2 →
  (∀ k, k ∈ l1 ↔ k ∈ l2) → l1 = l2.
Proof.
  intros H1 H2 Hel.
  assert (AntiSymm (=) Z.lt) by (intros x y ? ?; lia).
  apply (StronglySorted_unique Z.lt); [done|done|].
  apply NoDup_Permutation; auto using StronglySorted_lt_NoDup.
Qed.

Lemma StronglySorted_seqZ (n : nat) : ∀ m, StronglySorted Z.lt (seqZ m (Z.of_nat n)).
Proof.
  induction n as [|n IH]; intros m.
  - rewrite seqZ_nil by lia. constructor.
  - rewrite seqZ_cons by lia.
    replace (Z.pred (Z.of_nat (S n))) with (Z.of_nat n) by lia.
    constructor; [apply IH|]. apply Forall_seqZ. intros; lia.
Qed.

Lemma map_size_seqZ (vs : list (option Content)) :
  size (map_seqZ (M:=gmap Z (option Content)) 0 vs) = length vs.
Proof.
  rewrite <- length_map_to_list, map_to_list_seqZ.
  rewrite length_zip_with, length_seqZ. lia.
Qed.

Lemma seqZ_read (vs : list (option Content)) :
  (λ k, default None (map_seqZ (M:=gmap Z (option Content)) 0 vs !! k))
    <$> seqZ 0 (Z.of_nat (length vs)) = vs.
Proof.
  apply list_eq. intros i. rewrite list_lookup_fmap.
  destruct (decide (i < length vs)%nat) as [Hi|Hi].
  - rewrite lookup_seqZ_lt by lia. simpl.
    rewrite lookup_map_seqZ_0 by lia.
    replace (Z.to_nat (0 + Z.of_nat i)) with i by lia.
    destruct (lookup_lt_is_Some_2 vs i Hi) as [v Hv]. by rewrite Hv.
  - rewrite lookup_seqZ_ge by lia. simpl. symmetry. apply lookup_ge_None. lia.
Qed.

Lemma AddEvents_unindexed starts : ∀ r resp vs,
  response r = Some resp →
  well_formed r →
  blocks r = map_seqZ 0 vs →
  Forall unindexed_start starts →
  ∃ r', AddEvents r starts = (r', Return <$> replicate (length starts) None) ∧
        well_formed r' ∧
        blocks r' = map_seqZ 0 (vs ++ (start_block <$> starts)) ∧
        ∃ resp', response r' = Some resp' ∧ Response_Content resp' = Response_Content resp.
Proof.
  induction starts as [|e starts IH]; intros r resp vs Hr Hwf Hb Hall.
  - exists r. simpl. rewrite app_nil_r. repeat (split; [done|]). by eexists.
  - apply Forall_cons in Hall as [(Hty & Hi & [cb Hcb]) Hall].
    destruct (AddEvent_start_any r resp e cb Hr Hwf Hty Hcb)
      as (r1 & Hstep & Hwf1 & Hb1 & _ & _ & resp1 & Hr1 & Hcontent1).
    assert (start_index r e = 0 + Z.of_nat (length vs)) as Hidx.
    { unfold start_index. rewrite Hi. simpl.
      rewrite <- (map_size_fmap (deref (store r))). fold (blocks r).
      rewrite Hb, map_size_seqZ. lia. }
    rewrite Hidx, Hb, <- map_seqZ_snoc in Hb1.
    destruct (IH r1 resp1 _ Hr1 Hwf1 Hb1 Hall) as (r' & Hrun & Hwf' & Hb' & resp' & Hr' & Hc').
    exists r'. simpl. rewrite Hstep, Hrun. split; [done|]. split; [done|]. split.
    + rewrite Hb', <- app_assoc. simpl. unfold start_block at 2. by rewrite Hcb.
    + exists resp'. split; [done|]. congruence.
Qed.

(** X6.  When every [content_block_start] event of a stream comes without an
    index, the blocks get the keys 0, 1, 2, ... in order of arrival, and
    after [message_stop] the response's content is the started blocks in
    order of arrival, every call returning nil.  (With no start at all the
    snapshot's content stays; that case is covered for an empty snapshot
    content.) *)
Theorem unindexed_starts_keep_arrival_order (e0 : Event) (m : Response (option Content))
    (starts : list Event) (stop : Event) :
  Event_Type e0 = EventTypeMessageStart →
  Event_Message e0 = Some m →
  Forall unindexed_start starts →
  Event_Type stop = EventTypeMessageStop →
  (starts = [] → Response_Content m = []) →
  ∃ r',
    AddEvents NewResponseAccumulator (e0 :: starts ++ [stop]) =
      (r', replicate (S (S (length starts))) (Return None)) ∧
    final_content r' = Some (start_block <$> starts).
Proof.
  intros Hty0 Hm Hstarts Htystop Hsnapshot.
  destruct (AddEvent_message_start_fresh e0 m Hty0 Hm) as (st0 & resp0 & Hstep0 & Hnil0).
  set (r0 := mkResponseAccumulator st0 (Some resp0) ∅ false) in *.
  destruct (AddEvents_unindexed starts r0 resp0 [] eq_refl (well_formed_empty _ _ _))
    as (r1 & Hrun1 & Hwf1 & Hb1 & resp1 & Hr1 & Hcontent1); [apply fmap_empty|done|].
  simpl in Hb1.
  destruct (AddEvent_message_stop r1 resp1 stop Hr1 Htystop) as (r2 & Hstep2 & _ & Hfinal).
  exists r2. split.
  - simpl. rewrite Hstep0. fold r0. rewrite (AddEvents_app r0 starts _ r1 _ Hrun1).
    simpl. rewrite Hstep2. simpl. rewrite fmap_replicate. do 2 f_equal.
    clear. induction (length starts) as [|n IHn]; simpl; [done|by rewrite IHn].
  - rewrite Hfinal. f_equal.
    assert (size (contentBlocks r1) = length starts) as Hsize.
    { rewrite <- (map_size_fmap (deref (store r1))). fold (blocks r1).
      by rewrite Hb1, map_size_seqZ, length_fmap. }
    case_decide as Hzero.
    + rewrite Hsize in Hzero. destruct starts; [|done].
      rewrite Hcontent1. simpl. by rewrite Hnil0 by auto.
    + destruct (sorted_keys_spec (contentBlocks r1)) as [Hsorted Hkeys].
      rewrite (StronglySorted_lt_unique _ (seqZ 0 (Z.of_nat (length (start_block <$> starts))))
                 Hsorted (StronglySorted_seqZ _ _)).
      * rewrite Hb1. apply seqZ_read.
      * intros k. rewrite Hkeys, elem_of_seqZ.
        rewrite <- (fmap_is_Some (deref (store r1))), <- blocks_lookup, Hb1.
        rewrite lookup_map_seqZ_is_Some. lia.
Qed.

Lemma unindexed_starts_keep_arrival_order_witness :
  ∃ r',
    AddEvents NewResponseAccumulator
      (message_start_event sample_snapshot None ::
       sample_unindexed_starts ++ [bare_event EventTypeMessageStop]) =
      (r', replicate 5 (Return None)) ∧
    final_content r' =
      Some [Some (Text (mkTextContent "first" None []));
            Some (ToolUse (mkToolUseContent "toolu_1" "get_weather" ""));
            Some (Text (mkTextContent "third" None []))].
Proof.
  apply (unindexed_starts_keep_arrival_order
           (message_start_event sample_snapshot None) sample_snapshot
           sample_unindexed_starts (bare_event EventTypeMessageStop)).
  - reflexivity.
  - reflexivity.
  - unfold sample_unindexed_starts.
    repeat (apply Forall_cons_2; [by (repeat split; eexists)|]). apply Forall_nil_2.
  - reflexivity.
  - discriminate.
Defined.

(** X7.  A [content_block_start] event without an index stores its block
    under the current number of blocks.  Where that key is free the map
    grows by one; where explicit indices have left it taken (the keys are
    not 0..n-1), the event silently replaces the block that was there and
    the map does not grow.  Either way the call returns nil. *)
Theorem unindexed_start_uses_map_size (r : ResponseAccumulator) (e : Event) :
  reachable r →
  is_Some (response r) →
  unindexed_start e →
  (AddEvent r e).2 = Return None ∧
  blocks (AddEvent r e).1 !! Z.of_nat (size (contentBlocks r)) = Some (start_block e) ∧
  (∀ k, k ≠ Z.of_nat (size (contentBlocks r)) →
     blocks (AddEvent r e).1 !! k = blocks r !! k) ∧
  (contentBlocks r !! Z.of_nat (size (contentBlocks r)) = None →
     size (contentBlocks (AddEvent r e).1) = S (size (contentBlocks r))) ∧
  (is_Some (contentBlocks r !! Z.of_nat (size (contentBlocks r))) →
     size (contentBlocks (AddEvent r e).1) = size (contentBlocks r)).
Proof.
  intros Hwf%reachable_well_formed [resp Hr] (Hty & Hi & [cb Hcb]).
  destruct (AddEvent_start_any r resp e cb Hr Hwf Hty Hcb)
    as (r' & -> & _ & Hb & Hdom & _). simpl.
  unfold start_index in Hb, Hdom. rewrite Hi in Hb, Hdom. simpl in Hb, Hdom.
  unfold start_block. rewrite Hcb. simpl.
  split; [done|]. split; [by rewrite Hb, lookup_insert_eq|].
  split; [by intros k Hk; rewrite Hb, lookup_insert_ne|].
  split.
  - intros Hfree%not_elem_of_dom.
    rewrite <- (size_dom (contentBlocks r')), Hdom, size_union, size_singleton, size_dom;
      [lia | by apply disjoint_singleton_l].
  - intros Htaken%elem_of_dom.
    assert ({[Z.of_nat (size (contentBlocks r))]} ∪ dom (contentBlocks r) =
            dom (contentBlocks r)) as Heq
      by by apply subseteq_union_1_L, singleton_subseteq_l.
    rewrite <- (size_dom (contentBlocks r')), Hdom, Heq. apply size_dom.
Qed.

Lemma unindexed_start_uses_map_size_witness :
  blocks (AddEvent gapped_accumulator (unindexed_event ContentTypeText "implicit")).1 !! 1 =
    Some (Some (Text (mkTextContent "implicit" None []))) ∧
  size (contentBlocks
          (AddEvent gapped_accumulator (unindexed_event ContentTypeText "implicit")).1) =
    1%nat.
Proof.
  destruct (unindexed_start_uses_map_size gapped_accumulator
              (unindexed_event ContentTypeText "implicit"))
    as (_ & Hblock & _ & _ & Hsize).
  - exists [message_start_event sample_snapshot None;
            start_event 1 ContentTypeText "explicit"]. reflexivity.
  - by eexists.
  - repeat split; by eexists.
  - split; [exact Hblock|]. rewrite Hsize; [reflexivity|]. by eexists.
Defined.

(** X8.  In a started accumulator a [content_block_delta] event without a
    delta payload or without an index is answered with "invalid content
    block delta event", and one whose index has no started block with
    "content block not found for index"; in both cases nothing changes. *)
Theorem content_block_delta_preconditions (r : ResponseAccumulator) (e : Event) :
  is_Some (response r) →
  Event_Type e = EventTypeContentBlockDelta →
  (Event_Delta e = None ∨ Event_Index e = None →
     AddEvent r e = (r, Return (Some "invalid content block delta event"))) ∧
  (∀ d i, Event_Delta e = Some d → Event_Index e = Some i →
     contentBlocks r !! i = None →
     AddEvent r e = (r, Return (Some "content block not found for index"))).
Proof.
  intros [resp Hr] Hty. unfold AddEvent. rewrite dispatch_ContentBlockDelta by done.
  unfold caseContentBlockDelta. rewrite Hr. split.
  - intros [-> | ->]; [done|]. by destruct (Event_Delta e).
  - intros d i -> -> ->. done.
Qed.

Lemma content_block_delta_preconditions_witness :
  AddEvent hello_accumulator (bare_event EventTypeContentBlockDelta) =
    (hello_accumulator, Return (Some "invalid content block delta event")) ∧
  AddEvent hello_accumulator (delta_event 3 EventDeltaTypeText "x") =
    (hello_accumulator, Return (Some "content block not found for index")).
Proof.
  split.
  - destruct (content_block_delta_preconditions hello_accumulator
                (bare_event EventTypeContentBlockDelta)) as [Hinvalid _];
      [by eexists | reflexivity |].
    apply Hinvalid. by left.
  - destruct (content_block_delta_preconditions hello_accumulator
                (delta_event 3 EventDeltaTypeText "x")) as [_ Hmissing];
      [by eexists | reflexivity |].
    by eapply Hmissing.
Defined.

(** X9.  A [content_block_start] whose block type is none of text,
    tool_use, thinking and redacted_thinking is accepted with a nil error
    and leaves a nil entry under its index; a text, input-JSON, thinking or
    signature delta addressed to a nil entry is rejected with an error. *)
Theorem unknown_block_type_gives_nil_entry (r : ResponseAccumulator) (e : Event)
    (cb : EventContentBlock) :
  reachable r →
  is_Some (response r) →
  Event_Type e = EventTypeContentBlockStart →
  Event_ContentBlock e = Some cb →
  ¬ known_block_type (EventContentBlock_Type cb) →
  (AddEvent r e).2 = Return None ∧
  blocks (AddEvent r e).1 !! start_index r e = Some None ∧
  ∀ e' d, Event_Type e' = EventTypeContentBlockDelta →
    Event_Index e' = Some (start_index r e) → Event_Delta e' = Some d →
    handled_delta (EventDelta_Type d) →
    ∃ msg, AddEvent (AddEvent r e).1 e' = ((AddEvent r e).1, Return (Some msg)).
Proof.
  intros Hwf%reachable_well_formed [resp Hr] Hty Hcb Hunknown.
  destruct (AddEvent_start_any r resp e cb Hr Hwf Hty Hcb)
    as (r' & -> & Hwf' & Hb & _ & _ & resp' & Hr' & _). simpl.
  assert (startContent cb = None) as Hnil.
  { unfold startContent, known_block_type in *. repeat case_decide; tauto. }
  rewrite Hnil in Hb.
  assert (blocks r' !! start_index r e = Some None) as Hentry
    by by rewrite Hb, lookup_insert_eq.
  split; [done|]. split; [done|].
  intros e' d Hty' Hi' Hd' Hkind.
  rewrite blocks_lookup in Hentry.
  destruct (contentBlocks r' !! start_index r e) as [content|] eqn:Hc; [|done].
  erewrite AddEvent_ContentBlockDelta by done.
  injection Hentry as ->.
  unfold mergeDelta, handled_delta, other_block_delta in *.
  destruct Hkind as [H | [H | [H | H]]]; rewrite H; simpl; by eexists.
Qed.

Lemma unknown_block_type_gives_nil_entry_witness :
  final_content
    (AddEvents started_accumulator
       [start_event 0 "server_tool_use" ""; bare_event EventTypeMessageStop]).1 =
    Some [None] ∧
  ∃ msg,
    AddEvent (AddEvent started_accumulator (start_event 0 "server_tool_use" "")).1
      (delta_event 0 EventDeltaTypeInputJSON "{") =
      ((AddEvent started_accumulator (start_event 0 "server_tool_use" "")).1,
       Return (Some msg)).
Proof.
  destruct (unknown_block_type_gives_nil_entry started_accumulator
              (start_event 0 "server_tool_use" "")
              (mkEventContentBlock "server_tool_use" "" "" "" "" "" ""))
    as (_ & _ & Hreject).
  - exists [message_start_event sample_snapshot None]. reflexivity.
  - by eexists.
  - reflexivity.
  - reflexivity.
  - intros [H | [H | [H | H]]]; discriminate H.
  - split; [reflexivity|].
    apply (Hreject (delta_event 0 EventDeltaTypeInputJSON "{")
             (mkEventDelta EventDeltaTypeInputJSON "{" 0 "" "" "{" "{" "{"));
      [reflexivity | reflexivity | reflexivity | right; left; reflexivity].
Defined.

(** ** The [Response()] accessor *)

Lemma sort_Ints_length (m : gmap Z ContentRef) :
  length (sort_Ints (map_to_list m).*1) = size m.
Proof.
  unfold sort_Ints. rewrite (Permutation_length (merge_sort_Permutation Z.le _)).
  by rewrite length_fmap, length_map_to_list.
Qed.

Lemma finalizeContent_set_complete r b :
  finalizeContent (set_complete r b) = set_complete (finalizeContent r) b.
Proof. unfold finalizeContent. simpl. by repeat case_match. Qed.

Lemma finalizeContent_idem r : finalizeContent (finalizeContent r) = finalizeContent r.
Proof.
  unfold finalizeContent. destruct (response r) as [resp|] eqn:Hr; [|by rewrite Hr].
  case_decide as Hsize; simpl; [by rewrite Hr, decide_True|].
  rewrite decide_False by done. by destruct resp.
Qed.

(** X10.  The [Response()] accessor changes nothing but the response's
    content; a second call returns the same response and changes nothing at
    all; a [message_stop] processed after it has the effect it would have
    had without it; and where the response's content was still empty, the
    content it hands out is the content [message_stop] would produce at that
    point. *)
Theorem Response_accessor (r : ResponseAccumulator) :
  (store (Response_state r) = store r ∧
   contentBlocks (Response_state r) = contentBlocks r ∧
   IsComplete (Response_state r) = IsComplete r ∧
   (ResponseAccumulator_Response r).2 = response (Response_state r)) ∧
  ResponseAccumulator_Response (Response_state r) =
    (Response_state r, (ResponseAccumulator_Response r).2) ∧
  (∀ stop, Event_Type stop = EventTypeMessageStop →
     AddEvent (Response_state r) stop = AddEvent r stop) ∧
  (∀ stop resp, Event_Type stop = EventTypeMessageStop →
     response r = Some resp → Response_Content resp = [] →
     final_content (Response_state r) = final_content (AddEvent r stop).1).
Proof.
  assert (Response_state r = r ∨
          (Response_state r = finalizeContent r ∧ size (contentBlocks r) ≠ 0%nat ∧
           is_Some (response r))) as Hcases.
  { unfold Response_state, ResponseAccumulator_Response. simpl.
    destruct (response r) as [resp|]; [|by left].
    case_decide as Hc; [right|by left]. split; [done|]. split; [tauto|by eexists]. }
  split; [|split; [|split]].
  - assert ((ResponseAccumulator_Response r).2 = response (Response_state r)) as Hsnd
      by done.
    rewrite Hsnd. destruct Hcases as [Heq | (Heq & _ & _)]; rewrite Heq; [done|].
    unfold finalizeContent. by repeat case_match.
  - unfold ResponseAccumulator_Response at 1. fold (Response_state r).
    assert (∀ resp, response (Response_state r) = Some resp →
              ¬ (size (contentBlocks (Response_state r)) ≠ 0%nat ∧
                 length (Response_Content resp) = 0%nat)) as Hdone.
    { intros resp Hresp [Hsize Hlen].
      unfold Response_state, ResponseAccumulator_Response in *. simpl in *.
      destruct (response r) as [resp0|] eqn:Hr; [|by rewrite Hr in Hresp].
      case_decide as Hc.
      - unfold finalizeContent in *. rewrite Hr in *.
        rewrite decide_False in * by tauto. simpl in *.
        injection Hresp as <-. simpl in Hlen.
        rewrite length_fmap, sort_Ints_length in Hlen. tauto.
      - rewrite Hr in Hresp. injection Hresp as <-. tauto. }
    destruct (response (Response_state r)) as [resp|] eqn:Hresp; simpl.
    + rewrite decide_False by by apply Hdone.
      reflexivity.
    + reflexivity.
  - intros stop Hty. destruct Hcases as [-> | (-> & _ & _)]; [done|].
    unfold AddEvent. rewrite !dispatch_MessageStop by done. unfold caseMessageStop.
    by rewrite !finalizeContent_set_complete, finalizeContent_idem.
  - intros stop resp Hty Hr Hnil.
    destruct (AddEvent_message_stop r resp stop Hr Hty) as (r' & -> & _ & Hfinal).
    simpl. rewrite Hfinal.
    unfold Response_state, ResponseAccumulator_Response. simpl. rewrite Hr, Hnil. simpl.
    case_decide as Hsize.
    + rewrite decide_False by tauto. unfold final_content. rewrite Hr. simpl.
      by rewrite Hnil.
    + rewrite decide_True by tauto. unfold final_content, finalizeContent.
      rewrite Hr, decide_False by done. simpl. f_equal.
      rewrite <- list_fmap_compose. apply list_fmap_ext.
      intros i k _. simpl. apply (deref_block_at r).
Qed.

Lemma Response_accessor_witness :
  final_content (Response_state gapped_accumulator) =
    final_content (AddEvent gapped_accumulator (bare_event EventTypeMessageStop)).1.
Proof.
  destruct (Response_accessor gapped_accumulator) as (_ & _ & _ & Hstop).
  eapply Hstop; reflexivity.
Defined.

Lemma IsComplete_iff_message_stop_witness :
  IsComplete (AddEvents NewResponseAccumulator sample_stream).1 = true ∧
  IsComplete
    (AddEvents NewResponseAccumulator
       [message_start_event sample_snapshot None; start_event 0 ContentTypeText "x"]).1 = false.
Proof.
  split.
  - destruct (IsComplete_iff_message_stop NewResponseAccumulator) as [_ Hrun].
    rewrite (Hrun sample_stream (AddEvents NewResponseAccumulator sample_stream).1
               [None; None; None; None; None;
                Some "in-progress block is not a tool use content"; None; None]);
      reflexivity.
  - destruct (IsComplete_iff_message_stop NewResponseAccumulator) as [_ Hrun].
    rewrite (Hrun [message_start_event sample_snapshot None; start_event 0 ContentTypeText "x"]
               (AddEvents NewResponseAccumulator
                  [message_start_event sample_snapshot None;
                   start_event 0 ContentTypeText "x"]).1
               [None; None]); reflexivity.
Defined.

(** * Further properties of the SSE reader *)

Section ServerSentEventsReader_more.
Context {T : Type}.
Variable zero : T.
Variable Unmarshal : string → T + string.
Variable TrimSpace : string → string.

(** X11.  After lines of protocol noise that the callback lets through:
    - a line the callback refuses ends the iteration with the callback's
      error, whatever the line holds (a decodable event included);
    - a read error of the underlying stream ends it with that error. *)
Theorem Next_callback_and_read_errors (s : ServerSentEventsReader) (skipped : list string) :
  Forall (noise TrimSpace) skipped →
  Forall (let_through (sseCallback s)) skipped →
  (∀ line rest f e, reader_lines s = skipped ++ line :: rest →
     sseCallback s = Some f → f line = Some e →
     (ServerSentEventsReader_Next zero Unmarshal TrimSpace s).1 = (zero, false) ∧
     ServerSentEventsReader_Err (ServerSentEventsReader_Next zero Unmarshal TrimSpace s).2 =
       Some e ∧
     reader_lines (ServerSentEventsReader_Next zero Unmarshal TrimSpace s).2 = rest) ∧
  (∀ e, reader_lines s = skipped → reader_end s = Some e →
     (ServerSentEventsReader_Next zero Unmarshal TrimSpace s).1 = (zero, false) ∧
     ServerSentEventsReader_Err (ServerSentEventsReader_Next zero Unmarshal TrimSpace s).2 =
       Some e).
Proof using Type.
  unfold ServerSentEventsReader_Err, ServerSentEventsReader_Next.
  intros Hnoise Hcb. split.
  - intros line rest f e Hlines Hf He.
    rewrite Hlines, NextLoop_skip by done. simpl. rewrite Hf. simpl. by rewrite He.
  - intros e Hlines Hend. rewrite Hlines, Hend.
    rewrite <- (app_nil_r skipped), NextLoop_skip by done. done.
Qed.

Lemma NextLoop_inv lines : ∀ ending err callback v b s',
  NextLoop zero Unmarshal TrimSpace lines ending err callback = ((v, b), s') →
  ∃ consumed,
    lines = consumed ++ reader_lines s' ∧
    reader_end s' = ending ∧ sseCallback s' = callback ∧
    (b = true →
       reader_err s' = err ∧
       ∃ skipped line, consumed = skipped ++ [line] ∧
         Forall (noise TrimSpace) skipped ∧ Forall (let_through callback) skipped ∧
         let_through callback line ∧ json_line TrimSpace line ∧
         Unmarshal (payload TrimSpace line) = inl v) ∧
    (b = false → v = zero ∧ (reader_err s' = err ∨ is_Some (reader_err s'))).
Proof using Type.
  induction lines as [|line lines IH]; intros ending err callback v b s'; simpl.
  - destruct ending as [e|]; intros [= <- <- <-]; exists []; simpl;
      (do 4 (split; [done|])); intros _; (split; [done|]);
      [right; by eexists | by left].
  - destruct (callback ≫= (λ f, f line)) as [e|] eqn:Hcb.
    { intros [= <- <- <-]. exists [line]. simpl.
      do 4 (split; [done|]). intros _. split; [done|]. right. by eexists. }
    assert (∀ r, NextLoop zero Unmarshal TrimSpace lines ending err callback = r →
                 noise TrimSpace line → r = (v, b, s') →
                 ∃ consumed, line :: lines = consumed ++ reader_lines s' ∧
                   reader_end s' = ending ∧ sseCallback s' = callback ∧
                   (b = true →
                      reader_err s' = err ∧
                      ∃ skipped line0, consumed = skipped ++ [line0] ∧
                        Forall (noise TrimSpace) skipped ∧
                        Forall (let_through callback) skipped ∧
                        let_through callback line0 ∧ json_line TrimSpace line0 ∧
                        Unmarshal (payload TrimSpace line0) = inl v) ∧
                   (b = false → v = zero ∧ (reader_err s' = err ∨ is_Some (reader_err s'))))
      as Hskip.
    { intros r Hr Hnoise ->.
      destruct (IH _ _ _ _ _ _ Hr) as (consumed & Hlines & Hend & Hcall & Htrue & Hfalse).
      exists (line :: consumed). split; [by rewrite Hlines at 1|].
      repeat (split; [done|]). split; [|done].
      intros Hb. destruct (Htrue Hb) as (Herr & skipped & line0 & -> & ? & ? & ? & ? & ?).
      split; [done|]. exists (line :: skipped), line0.
      split; [done|]. split; [by constructor|]. split; [by constructor|]. done. }
    case_decide as Hblank.
    { intros Hr. eapply Hskip; [done| |done]. by left. }
    case_decide as Hdone.
    { intros [= <- <- <-]. exists [line]. simpl.
      do 4 (split; [done|]). intros _. split; [done|]. by left. }
    destruct (HasPrefix _ "{") eqn:Hbrace; simpl.
    + destruct (Unmarshal _) as [event|e] eqn:Hdecode; intros [= <- <- <-];
        exists [line]; simpl.
      * do 3 (split; [done|]). split; [|done]. intros _. split; [done|].
        exists [], line. split; [done|]. split; [constructor|]. split; [constructor|].
        by repeat split.
      * do 4 (split; [done|]). intros _. split; [done|]. right. by eexists.
    + intros Hr. eapply Hskip; [done| |done]. by right.
Qed.

(** X12.  Whatever the stream holds, a call of [Next] reads a prefix of the
    lines still to come and keeps the rest.  When it returns true, the event
    is the decoding of the last line it read, that line starts with a brace
    once stripped, every line read before it is protocol noise, and [Err()]
    is as before the call.  When it returns false the value is the zero
    value, and [Err()] is as before the call or set: an error, once
    recorded, is never cleared. *)
Theorem Next_reads_a_prefix (s : ServerSentEventsReader) :
  ∃ consumed,
    reader_lines s =
      consumed ++ reader_lines (ServerSentEventsReader_Next zero Unmarshal TrimSpace s).2 ∧
    ((ServerSentEventsReader_Next zero Unmarshal TrimSpace s).1.2 = true →
       ServerSentEventsReader_Err (ServerSentEventsReader_Next zero Unmarshal TrimSpace s).2 =
         ServerSentEventsReader_Err s ∧
       ∃ skipped line, consumed = skipped ++ [line] ∧
         Forall (noise TrimSpace) skipped ∧ json_line TrimSpace line ∧
         Unmarshal (payload TrimSpace line) =
           inl (ServerSentEventsReader_Next zero Unmarshal TrimSpace s).1.1) ∧
    ((ServerSentEventsReader_Next zero Unmarshal TrimSpace s).1.2 = false →
       (ServerSentEventsReader_Next zero Unmarshal TrimSpace s).1.1 = zero ∧
       (is_Some (ServerSentEventsReader_Err s) →
        is_Some (ServerSentEventsReader_Err
                   (ServerSentEventsReader_Next zero Unmarshal TrimSpace s).2))).
Proof using Type.
  unfold ServerSentEventsReader_Next, ServerSentEventsReader_Err.
  destruct (NextLoop _ _ _ _ _ _ _) as [[v b] s'] eqn:Hnext.
  destruct (NextLoop_inv _ _ _ _ _ _ _ Hnext) as (consumed & Hlines & _ & _ & Htrue & Hfalse).
  exists consumed. simpl. split; [done|]. split.
  - intros Hb. destruct (Htrue Hb) as (Herr & skipped & line & -> & ? & _ & _ & ? & ?).
    split; [done|]. by exists skipped, line.
  - intros Hb. destruct (Hfalse Hb) as [-> [Herr | Herr]]; split; try done.
    by rewrite Herr.
Qed.
End ServerSentEventsReader_more.

Lemma Next_callback_and_read_errors_witness :
  (ServerSentEventsReader_Next (bare_event "") sample_Unmarshal TrimSpaceASCII
     (mkServerSentEventsReader
        [String "010" ""; "event: ping" +:+ String "010" ""; "data: {}" +:+ String "010" ""]
        None None (Some sample_callback))).1 = (bare_event "", false) ∧
  ServerSentEventsReader_Err
    (ServerSentEventsReader_Next (bare_event "") sample_Unmarshal TrimSpaceASCII
       (mkServerSentEventsReader
          [String "010" ""; "event: ping" +:+ String "010" ""; "data: {}" +:+ String "010" ""]
          None None (Some sample_callback))).2 = Some "named events are not expected".
Proof.
  destruct (Next_callback_and_read_errors (bare_event "") sample_Unmarshal TrimSpaceASCII
              (mkServerSentEventsReader
                 [String "010" ""; "event: ping" +:+ String "010" "";
                  "data: {}" +:+ String "010" ""]
                 None None (Some sample_callback))
              [String "010" ""]) as [Hcallback _].
  - apply Forall_cons_2; [by left | apply Forall_nil_2].
  - apply Forall_cons_2; [reflexivity | apply Forall_nil_2].
  - destruct (Hcallback ("event: ping" +:+ String "010" "") ["data: {}" +:+ String "010" ""]
                sample_callback "named events are not expected") as (H1 & H2 & _);
      [reflexivity | reflexivity | reflexivity |].
    split; [exact H1 | exact H2].
Defined.

Lemma Next_reads_a_prefix_witness :
  ∃ consumed,
    reader_lines (sample_reader ("data: {}" +:+ String "010" "") ["data: [DONE]"]) =
      consumed ++
      reader_lines
        (ServerSentEventsReader_Next (bare_event "") sample_Unmarshal TrimSpaceASCII
           (sample_reader ("data: {}" +:+ String "010" "") ["data: [DONE]"])).2.
Proof.
  destruct (Next_reads_a_prefix (bare_event "") sample_Unmarshal TrimSpaceASCII
              (sample_reader ("data: {}" +:+ String "010" "") ["data: [DONE]"]))
    as (consumed & Hsplit & _).
  exists consumed. exact Hsplit.
Defined.

(** * Further properties of the stream iterator *)

Lemma StreamIterator_NextLoop_outcome events : ∀ s,
  let res := StreamIterator_NextLoop events s in
  (res.1 = false →
     iterator_err res.2 = reader_final s ∧ body_closed res.2 = true ∧
     reader_events res.2 = [] ∧ currentEvent res.2 = currentEvent s ∧
     Forall (λ e, Event_Type e = "") events) ∧
  (res.1 = true →
     iterator_err res.2 = iterator_err s ∧ body_closed res.2 = body_closed s ∧
     ∃ e, currentEvent res.2 = Some e ∧ Event_Type e ≠ "") ∧
  (∃ consumed, events = consumed ++ reader_events res.2) ∧
  reader_final res.2 = reader_final s ∧
  prefillClosingTag res.2 = prefillClosingTag s ∧
  (prefill res.2 = prefill s ∨ prefill res.2 = "").
Proof.
  induction events as [|e events IH]; intros s; simpl.
  - repeat split; try done; [by exists [] | by left].
  - set (s1 := mkStreamIterator events _ _ _ _ _ _).
    destruct (processEvent_frame s1 e) as [p Hframe].
    assert (p = prefill s ∨ p = "") as Hp.
    { assert (prefill (processEvent s1 e).1 = p) as <- by by rewrite Hframe.
      unfold processEvent. repeat case_match; simpl; auto. }
    assert (∀ e', (processEvent s1 e).2 = Some e' → Event_Type e' ≠ "") as Htyped.
    { intros e'. unfold processEvent, with_prefill.
      repeat case_match; simpl; intros [= <-]; simpl; try done; congruence. }
    assert ((processEvent s1 e).2 = None → Event_Type e = "") as Hswallowed.
    { unfold processEvent. repeat case_match; simpl; done. }
    destruct (processEvent s1 e) as [s2 [e'|]] eqn:Hproc; simpl in *; subst s2.
    + split; [done|]. split.
      { intros _. repeat split; try done. exists e'. split; [done|]. by apply Htyped. }
      split; [by exists [e]|]. split; [done|]. split; [done|]. simpl. tauto.
    + specialize (IH (set_prefill s1 p)). simpl in IH.
      destruct IH as (Hfalse & Htrue & [consumed Hcons] & Hfinal & Htag & Hpre).
      split; [|split; [|split; [|split; [|split]]]].
      * intros Hb. destruct (Hfalse Hb) as (? & ? & ? & ? & ?).
        repeat split; try done. constructor; [by apply Hswallowed|done].
      * intros Hb. by destruct (Htrue Hb) as (? & ? & ?).
      * exists (e :: consumed). simpl. by rewrite Hcons at 1.
      * done.
      * done.
      * destruct Hpre as [-> | ->]; [|by right]. simpl. tauto.
Qed.

(** X13.  A call of the iterator's [Next] reads events from its reader until
    one has a type.  When it returns true the current event has a non-empty
    type, and [Err()] and the body are as before the call.  When it returns
    false every event that was left had an empty type, [Err()] is the
    reader's error, the body is closed and the current event is untouched.
    In both cases the closing tag stays and the pending prefill is either as
    before or cleared. *)
Theorem StreamIterator_Next_outcome (s : StreamIterator) :
  ((StreamIterator_Next s).1 = true →
     (∃ e, currentEvent (StreamIterator_Next s).2 = Some e ∧ Event_Type e ≠ "") ∧
     iterator_err (StreamIterator_Next s).2 = iterator_err s ∧
     body_closed (StreamIterator_Next s).2 = body_closed s) ∧
  ((StreamIterator_Next s).1 = false →
     Forall (λ e, Event_Type e = "") (reader_events s) ∧
     iterator_err (StreamIterator_Next s).2 = reader_final s ∧
     body_closed (StreamIterator_Next s).2 = true ∧
     currentEvent (StreamIterator_Next s).2 = currentEvent s) ∧
  prefillClosingTag (StreamIterator_Next s).2 = prefillClosingTag s ∧
  (prefill (StreamIterator_Next s).2 = prefill s ∨ prefill (StreamIterator_Next s).2 = "").
Proof.
  unfold StreamIterator_Next.
  destruct (StreamIterator_NextLoop_outcome (reader_events s) s)
    as (Hfalse & Htrue & _ & _ & Htag & Hpre).
  split; [|split; [|done]].
  - intros Hb. by destruct (Htrue Hb) as (? & ? & ?).
  - intros Hb. by destruct (Hfalse Hb) as (? & ? & ? & ? & ?).
Qed.

Lemma StreamIterator_Next_outcome_witness :
  ∃ e, currentEvent (StreamIterator_Next (sample_iterator "" sample_events_untagged)).2 =
         Some e ∧ Event_Type e ≠ "".
Proof.
  destruct (StreamIterator_Next_outcome (sample_iterator "" sample_events_untagged))
    as [Htrue _].
  destruct Htrue as [Hevent _]; [reflexivity | exact Hevent].
Defined.





(** ** The iterator feeding the accumulator *)

Lemma visible_typed events :
  Forall (λ e, Event_Type e ≠ "") events → visible events = events.
Proof.
  unfold visible. induction 1 as [|e events He Hall IH]; [done|].
  rewrite filter_cons, decide_True by done. by rewrite IH.
Qed.

(** X15.  A stream of one text block ([message_start], the block's start
    with an explicit index, text deltas addressed to it, [message_stop])
    pulled through an iterator with a pending prefill and no closing tag,
    every surfaced event fed to a fresh accumulator: every [AddEvent] call
    returns nil, and the response's content is the single text block whose
    text is the prefill, then the start's text, then the deltas' texts in
    order. *)
Theorem prefilled_text_block_accumulates (s : StreamIterator) (fuel : nat)
    (e0 : Event) (m : Response (option Content)) (st : Event) (cb : EventContentBlock)
    (i : Z) (deltas : list Event) (stop : Event) :
  prefill s ≠ "" →
  prefillClosingTag s = "" →
  reader_events s = e0 :: st :: deltas ++ [stop] →
  (length (reader_events s) < fuel)%nat →
  Event_Type e0 = EventTypeMessageStart →
  Event_Message e0 = Some m →
  Event_Type st = EventTypeContentBlockStart →
  Event_Index st = Some i →
  Event_ContentBlock st = Some cb →
  EventContentBlock_Type cb = ContentTypeText →
  Forall (text_delta_for i) deltas →
  Event_Type stop = EventTypeMessageStop →
  ∃ r',
    AddEvents NewResponseAccumulator (pull fuel s) =
      (r', replicate (length (reader_events s)) (Return None)) ∧
    final_content r' =
      Some [Some (Text (mkTextContent
                          (prefill s +:+ EventContentBlock_Text cb +:+
                           concat_strings (delta_text <$> deltas)) None []))].
Proof.
  intros Hp Htag Hev Hfuel Hty0 Hm Htyst Hist Hcb Htext Hdeltas Htystop.
  (* what the iterator surfaces *)
  assert (pull fuel s = e0 :: with_prefill (prefill s) st :: deltas ++ [stop]) as ->.
  { rewrite (pull_surface (reader_events s)) by done. rewrite Hev.
    change (e0 :: st :: deltas ++ [stop]) with ([e0] ++ st :: deltas ++ [stop]).
    rewrite surface_inject; [| done | |].
    - rewrite !visible_typed; [done| |].
      + apply Forall_app. split.
        * eapply Forall_impl; [exact Hdeltas|]. intros e [He _]. by rewrite He.
        * apply Forall_cons_2; [by rewrite Htystop | apply Forall_nil_2].
      + apply Forall_cons_2; [by rewrite Hty0 | apply Forall_nil_2].
    - apply Forall_cons_2; [|apply Forall_nil_2]. intros [[He0 _] _].
      rewrite Hty0 in He0. discriminate He0.
    - split; [split; [done|by exists cb]|by left]. }
  rewrite Hev. set (e1 := with_prefill (prefill s) st).
  (* what the accumulator makes of it *)
  destruct (AddEvent_message_start_fresh e0 m Hty0 Hm) as (st0 & resp0 & Hstep0 & _).
  set (r0 := mkResponseAccumulator st0 (Some resp0) ∅ false) in *.
  destruct (AddEvent_block_start r0 resp0 e1 eq_refl (well_formed_empty _ _ _))
    as (r1 & Hstep1 & [Hw1 _] & Hb1 & _ & resp1 & Hr1 & _).
  { unfold e1, with_prefill. rewrite Hcb. split; [done|]. split; simpl; by eexists. }
  assert (blocks r1 = {[i := Some (Text (mkTextContent
                                          (prefill s +:+ EventContentBlock_Text cb) None []))]})
    as Hblocks.
  { rewrite Hb1. unfold start_step, e1, with_prefill. rewrite Hcb. simpl. rewrite Hist.
    unfold startContent. simpl. rewrite Htext. simpl.
    unfold blocks, r0. simpl.
    apply map_eq. intros k. destruct (decide (k = i)) as [->|Hk].
    - by rewrite lookup_insert_eq, lookup_singleton_eq.
    - by rewrite lookup_insert_ne, lookup_fmap, lookup_empty, lookup_singleton_ne. }
  destruct (contentBlocks r1 !! i) as [[ptr|]|] eqn:Hptr;
    pose proof (blocks_lookup r1 i) as Hlook;
    rewrite Hblocks, lookup_singleton_eq, Hptr in Hlook; simpl in Hlook; try done.
  injection Hlook as Hblock. symmetry in Hblock.
  destruct (AddEvents_text_deltas i ptr deltas r1 resp1 _ Hr1 Hptr Hblock Hdeltas)
    as (r2 & Hrun2 & Hm2 & _ & [resp2 Hr2] & Hst2).
  destruct (AddEvent_message_stop r2 resp2 stop Hr2 Htystop) as (r3 & Hstep3 & _ & Hfinal).
  exists r3. split.
  - simpl. rewrite Hstep0. fold r0. rewrite Hstep1.
    rewrite <- fmap_replicate in Hrun2. rewrite (AddEvents_app r1 deltas _ r2 _ Hrun2).
    simpl. rewrite Hstep3. simpl. rewrite fmap_replicate, length_app. simpl.
    do 3 f_equal. clear.
    induction (length deltas) as [|n IHn]; simpl; [done|by rewrite IHn].
  - rewrite Hfinal. f_equal.
    assert (∀ k, is_Some (contentBlocks r2 !! k) ↔ k = i) as Hkeys.
    { intros k. rewrite Hm2, <- (fmap_is_Some (deref (store r1))), <- blocks_lookup, Hblocks.
      rewrite lookup_singleton_is_Some. naive_solver. }
    rewrite decide_False.
    2:{ intros Hzero%map_size_empty_iff. rewrite Hzero in Hkeys.
        destruct (proj2 (Hkeys i) eq_refl) as [? Hx]. by rewrite lookup_empty in Hx. }
    destruct (sorted_keys_spec (contentBlocks r2)) as [Hsorted Hmem].
    rewrite (StronglySorted_lt_unique _ [i] Hsorted).
    + simpl. rewrite blocks_lookup, Hm2, Hptr, Hst2. simpl.
      rewrite list_lookup_insert_eq by by eapply lookup_lt_Some. simpl.
      unfold TextContent_append. simpl. by rewrite append_assoc.
    + repeat constructor.
    + intros k. rewrite Hmem, Hkeys, list_elem_of_singleton. done.
Qed.

Lemma prefilled_text_block_accumulates_witness :
  ∃ r',
    AddEvents NewResponseAccumulator (pull 6 (sample_iterator "" sample_text_stream)) =
      (r', replicate 5 (Return None)) ∧
    final_content r' = Some [Some (Text (mkTextContent "PREFIX: Hello, world" None []))].
Proof.
  apply (prefilled_text_block_accumulates (sample_iterator "" sample_text_stream) 6
           (message_start_event sample_snapshot None) sample_snapshot
           (start_event 0 ContentTypeText "Hello")
           (mkEventContentBlock ContentTypeText "Hello" "" "" "" "" "") 0
           [delta_event 0 EventDeltaTypeText ", "; delta_event 0 EventDeltaTypeText "world"]
           (bare_event EventTypeMessageStop)).
  - discriminate.
  - reflexivity.
  - reflexivity.
  - simpl. lia.
  - reflexivity.
  - reflexivity.
  - reflexivity.
  - reflexivity.
  - reflexivity.
  - reflexivity.
  - repeat (apply Forall_cons_2; [by (repeat split; eexists)|]). apply Forall_nil_2.
  - reflexivity.
Defined.

(** * [addPrefill] *)

Lemma addPrefillLoop_no_text blocks p tag :
  Forall (λ b, ¬ is_text b) blocks →
  addPrefillLoop blocks p tag = (blocks, Some "no text content found in message").
Proof.
  induction 1 as [|b blocks Hb Hall IH]; [done|]. simpl. rewrite IH.
  by destruct b.
Qed.

Lemma addPrefillLoop_first_text before c after p tag :
  Forall (λ b, ¬ is_text b) before →
  addPrefillLoop (before ++ Text c :: after) p tag =
    if bool_decide (tag = "") || Contains (TextContent_Text c) tag
    then (before ++ Text (mkTextContent (p +:+ TextContent_Text c)
                            (TextContent_CacheControl c) (TextContent_Citations c)) :: after,
          None)
    else (before ++ Text c :: after, Some "prefill closing tag not found").
Proof.
  induction 1 as [|b before Hb Hall IH]; simpl.
  - by destruct (_ || _).
  - rewrite IH. destruct b; try done; by destruct (_ || _).
Qed.

(** X16.  [addPrefill] with an empty prefill does nothing and returns nil.
    With a non-empty prefill it looks at the first text block only: without
    any text block it returns "no text content found in message"; when the
    closing tag is empty or occurs in that block's text, the prefill is put
    in front of that text and nil is returned; otherwise it returns "prefill
    closing tag not found", even if a later text block contains the tag.
    Whenever it returns an error, no block has changed. *)
Theorem addPrefill_first_text_block (blocks : list Content) (p tag : string) :
  (p = "" → addPrefill blocks p tag = (blocks, None)) ∧
  (p ≠ "" → Forall (λ b, ¬ is_text b) blocks →
     addPrefill blocks p tag = (blocks, Some "no text content found in message")) ∧
  (∀ before c after, p ≠ "" → blocks = before ++ Text c :: after →
     Forall (λ b, ¬ is_text b) before →
     (tag = "" ∨ Contains (TextContent_Text c) tag = true →
        addPrefill blocks p tag =
          (before ++ Text (mkTextContent (p +:+ TextContent_Text c)
                             (TextContent_CacheControl c) (TextContent_Citations c)) :: after,
           None)) ∧
     (tag ≠ "" → Contains (TextContent_Text c) tag = false →
        addPrefill blocks p tag = (blocks, Some "prefill closing tag not found"))) ∧
  (∀ blocks' msg, addPrefill blocks p tag = (blocks', Some msg) → blocks' = blocks).
Proof.
  unfold addPrefill. split; [|split; [|split]].
  - intros ->. done.
  - intros Hp Hall. rewrite decide_False by done. by apply addPrefillLoop_no_text.
  - intros before c after Hp -> Hbefore. rewrite decide_False by done.
    rewrite addPrefillLoop_first_text by done. split.
    + intros [-> | ->]; [done|]. by rewrite orb_true_r.
    + intros Htag ->. by rewrite bool_decide_eq_false_2.
  - case_decide; [done|]. clear. induction blocks as [|b blocks IH]; intros blocks' msg; simpl.
    + by intros [= <- _].
    + destruct b; try (destruct (addPrefillLoop blocks p tag) as [rest err] eqn:Hrest;
                       intros [= <- ->]; f_equal; by eapply IH).
      destruct (_ || _); by intros [= <- ?].
Qed.

Lemma addPrefill_first_text_block_witness :
  addPrefill [sample_tool "t"; sample_text "abc"; sample_text "x</r>"] "P: " "</r>" =
    ([sample_tool "t"; sample_text "abc"; sample_text "x</r>"],
     Some "prefill closing tag not found") ∧
  addPrefill [sample_tool "t"; sample_text "a</r>"; sample_text "b"] "P: " "</r>" =
    ([sample_tool "t"; sample_text "P: a</r>"; sample_text "b"], None).
Proof.
  split.
  - destruct (addPrefill_first_text_block
                [sample_tool "t"; sample_text "abc"; sample_text "x</r>"] "P: " "</r>")
      as (_ & _ & Hfirst & _).
    destruct (Hfirst [sample_tool "t"] (mkTextContent "abc" None []) [sample_text "x</r>"])
      as [_ Hmissing]; [discriminate | reflexivity | |].
    + apply Forall_cons_2; [by intros [] | apply Forall_nil_2].
    + apply Hmissing; [discriminate | reflexivity].
  - destruct (addPrefill_first_text_block
                [sample_tool "t"; sample_text "a</r>"; sample_text "b"] "P: " "</r>")
      as (_ & _ & Hfirst & _).
    destruct (Hfirst [sample_tool "t"] (mkTextContent "a</r>" None []) [sample_text "b"])
      as [Hfound _]; [discriminate | reflexivity | |].
    + apply Forall_cons_2; [by intros [] | apply Forall_nil_2].
    + apply Hfound. right. reflexivity.
Defined.

(** * The methods of [Message] *)

Lemma texts_app l1 l2 : texts (l1 ++ l2) = texts l1 ++ texts l2.
Proof. apply omap_app. Qed.

Lemma concat_snoc sep ts t :
  String.concat sep (ts ++ [t]) =
    if decide (0 < length ts)%nat then String.concat sep ts +:+ sep +:+ t else t.
Proof.
  induction ts as [|t1 ts IH]; [done|].
  destruct ts as [|t2 ts]; [done|].
  change (String.concat sep ((t1 :: t2 :: ts) ++ [t]))
    with (t1 +:+ sep +:+ String.concat sep ((t2 :: ts) ++ [t])).
  rewrite IH. rewrite decide_True by (simpl; lia). rewrite decide_True by (simpl; lia).
  change (String.concat sep (t1 :: t2 :: ts))
    with (t1 +:+ sep +:+ String.concat sep (t2 :: ts)).
  by rewrite !append_assoc.
Qed.

Lemma Message_Text_loop content :
  foldl (λ '(textCount, sb) content,
           match content with
           | Text c =>
               (S textCount,
                (if decide (0 < textCount)%nat then sb +:+ blank_line else sb)
                  +:+ TextContent_Text c)
           | _ => (textCount, sb)
           end)
        (0%nat, "") content =
    (length (texts content), String.concat blank_line (texts content)).
Proof.
  induction content as [|b content IH] using rev_ind; [done|].
  rewrite foldl_snoc, IH, texts_app.
  destruct b; simpl; rewrite ?app_nil_r; try done.
  rewrite length_app, concat_snoc. simpl. f_equal; [lia|].
  destruct (texts content) as [|t ts]; [done|].
  rewrite decide_True by (simpl; lia). rewrite decide_True by (simpl; lia).
  by rewrite append_assoc.
Qed.

Lemma Message_Text_texts m :
  Message_Text m = String.concat blank_line (texts (Message_Content m)).
Proof. unfold Message_Text. by rewrite Message_Text_loop. Qed.

Lemma firstText_reverse content : firstText (reverse content) = last (texts content).
Proof.
  induction content as [|b content IH] using rev_ind; [done|].
  rewrite reverse_snoc, texts_app. destruct b; simpl; rewrite ?app_nil_r; try done.
  by rewrite last_snoc.
Qed.

Lemma Message_LastText_texts m :
  Message_LastText m = default "" (last (texts (Message_Content m))).
Proof. unfold Message_LastText. by rewrite firstText_reverse. Qed.

(** X17.  [Text()] is the texts of the message's text blocks, in order,
    joined by two line feeds (the empty string when there is no text block);
    [LastText()] is the text of the last text block (the empty string when
    there is none).  Blocks of other types play no part in either. *)
Theorem Message_Text_and_LastText (m : Message) :
  Message_Text m = String.concat blank_line (texts (Message_Content m)) ∧
  Message_LastText m = default "" (last (texts (Message_Content m))).
Proof. split; [apply Message_Text_texts | apply Message_LastText_texts]. Qed.

Lemma Message_WithText_content ts : ∀ m,
  Message_WithText m ts =
    mkMessage (Message_ID m) (Message_Role m)
      (Message_Content m ++ ((λ t, Text (mkTextContent t None [])) <$> ts)).
Proof.
  unfold Message_WithText. induction ts as [|t ts IH]; intros m; simpl.
  - rewrite app_nil_r. by destruct m.
  - rewrite IH. simpl. by rewrite <- app_assoc.
Qed.

Lemma Message_Text_and_LastText_witness :
  Message_Text sample_mixed_message =
    "Here is the result:" +:+ blank_line +:+ "Additional text" ∧
  Message_LastText sample_mixed_message = "Additional text".
Proof. exact (Message_Text_and_LastText sample_mixed_message). Defined.

Lemma texts_of_texts ts : texts ((λ t, Text (mkTextContent t None [])) <$> ts) = ts.
Proof.
  induction ts as [|t ts IH]; [done|].
  change (t :: texts ((λ t, Text (mkTextContent t None [])) <$> ts) = t :: ts).
  by rewrite IH.
Qed.

(** X18.  [WithText] appends one text block per string, in order, and keeps
    the blocks that were there, the role and the identifier; read back,
    [LastText()] is the last string given, and [Text()] is the former texts
    followed by the strings given, joined by two line feeds. *)
Theorem WithText_then_read (m : Message) (ts : list string) :
  Message_Content (Message_WithText m ts) =
    Message_Content m ++ ((λ t, Text (mkTextContent t None [])) <$> ts) ∧
  Message_ID (Message_WithText m ts) = Message_ID m ∧
  Message_Role (Message_WithText m ts) = Message_Role m ∧
  Message_Text (Message_WithText m ts) =
    String.concat blank_line (texts (Message_Content m) ++ ts) ∧
  (∀ t ts', ts = ts' ++ [t] → Message_LastText (Message_WithText m ts) = t).
Proof.
  rewrite Message_Text_texts, Message_LastText_texts, Message_WithText_content. simpl.
  rewrite texts_app, texts_of_texts. repeat split.
  intros t ts' ->. by rewrite app_assoc, last_snoc.
Qed.

Lemma WithText_then_read_witness :
  Message_LastText (Message_WithText sample_mixed_message ["first"; "second"]) = "second".
Proof.
  destruct (WithText_then_read sample_mixed_message ["first"; "second"])
    as (_ & _ & _ & _ & Hlast).
  exact (Hlast "second" ["first"] eq_refl).
Defined.

(** ** Reordering and the accessors *)

Lemma ToolUse_type b :
  Content_Type b = ContentTypeToolUse ↔ ∃ c, b = ToolUse c.
Proof.
  split; [|by intros [c ->]].
  destruct b as [c|c|c|c|[] j]; try discriminate. by exists c.
Qed.

Lemma texts_cons b l :
  texts (b :: l) = match b with Text c => TextContent_Text c :: texts l | _ => texts l end.
Proof. by destruct b. Qed.

Lemma firstThinking_app l1 l2 :
  firstThinking (l1 ++ l2) =
    match firstThinking l1 with Some c => Some c | None => firstThinking l2 end.
Proof. induction l1 as [|b l1 IH]; [done|]. simpl. by destruct b. Qed.

Lemma tool_use_blocks_unread l :
  texts (filter (λ b, Content_Type b = ContentTypeToolUse) l) = [] ∧
  firstThinking (filter (λ b, Content_Type b = ContentTypeToolUse) l) = None.
Proof.
  induction l as [|b l [IH1 IH2]]; [done|]. rewrite filter_cons.
  case_decide as Hb; [|done]. apply ToolUse_type in Hb as [c ->].
  by rewrite texts_cons.
Qed.

Lemma other_blocks_read l :
  texts (filter (λ b, Content_Type b ≠ ContentTypeToolUse) l) = texts l ∧
  firstThinking (filter (λ b, Content_Type b ≠ ContentTypeToolUse) l) = firstThinking l.
Proof.
  induction l as [|b l [IH1 IH2]]; [done|]. rewrite filter_cons.
  case_decide as Hb.
  - rewrite !texts_cons, IH1. simpl. rewrite IH2. by destruct b.
  - apply ToolUse_type in Hb as [c ->]. by rewrite texts_cons.
Qed.

Lemma filter_tool_use_split content :
  texts (filter (λ b, Content_Type b ≠ ContentTypeToolUse) content ++
         filter (λ b, Content_Type b = ContentTypeToolUse) content) = texts content ∧
  firstThinking (filter (λ b, Content_Type b ≠ ContentTypeToolUse) content ++
                 filter (λ b, Content_Type b = ContentTypeToolUse) content) =
    firstThinking content.
Proof.
  rewrite texts_app, firstThinking_app.
  destruct (tool_use_blocks_unread content) as [-> ->].
  destruct (other_blocks_read content) as [-> ->].
  rewrite app_nil_r. split; [done|]. by destruct (firstThinking content).
Qed.

(** X19.  Reordering a message changes nothing a reader of its text sees:
    [Text()], [LastText()] and [ThinkingContent()] give the same result
    before and after, and so do the identifier and the role. *)
Theorem reorderMessage_keeps_readings (m : Message) :
  Message_Text (reorderMessage m) = Message_Text m ∧
  Message_LastText (reorderMessage m) = Message_LastText m ∧
  Message_ThinkingContent (reorderMessage m) = Message_ThinkingContent m ∧
  Message_ID (reorderMessage m) = Message_ID m ∧
  Message_Role (reorderMessage m) = Message_Role m.
Proof.
  rewrite !Message_Text_texts, !Message_LastText_texts. unfold Message_ThinkingContent.
  unfold reorderMessage. rewrite separate_filter.
  destruct (filter_tool_use_split (Message_Content m)) as [Htexts Hthinking].
  repeat case_decide; simpl; try done. by rewrite Htexts, Hthinking.
Qed.

Lemma reorderMessage_keeps_readings_witness :
  Message_Text (reorderMessage sample_mixed_message) =
    "Here is the result:" +:+ blank_line +:+ "Additional text" ∧
  Message_ThinkingContent (reorderMessage sample_mixed_message) =
    Some (mkThinkingContent "" "hmm" "sig").
Proof.
  destruct (reorderMessage_keeps_readings sample_mixed_message) as (Htext & _ & Hthinking & _).
  split; [exact Htext | exact Hthinking].
Defined.

Lemma reorderMessage_cases msg :
  reorderMessage msg = msg ∧
  (Message_Role msg = Assistant →
   filter (λ b, Content_Type b = ContentTypeToolUse) (Message_Content msg) = [] ∨
   filter (λ b, Content_Type b ≠ ContentTypeToolUse) (Message_Content msg) = [] ∨
   (length (Message_Content msg) < 2)%nat) ∨
  Message_Role msg = Assistant ∧
  filter (λ b, Content_Type b = ContentTypeToolUse) (Message_Content msg) ≠ [] ∧
  filter (λ b, Content_Type b ≠ ContentTypeToolUse) (Message_Content msg) ≠ [] ∧
  reorderMessage msg =
    mkMessage (Message_ID msg) (Message_Role msg)
      (filter (λ b, Content_Type b ≠ ContentTypeToolUse) (Message_Content msg) ++
       filter (λ b, Content_Type b = ContentTypeToolUse) (Message_Content msg)).
Proof.
  unfold reorderMessage. rewrite separate_filter.
  destruct (filter (λ b, Content_Type b = ContentTypeToolUse) (Message_Content msg))
    as [|t ts] eqn:Htool;
  destruct (filter (λ b, Content_Type b ≠ ContentTypeToolUse) (Message_Content msg))
    as [|o os] eqn:Hother;
  repeat case_decide; simpl in *; try (left; split; [done|]; intros; auto; fail);
    try (exfalso; lia).
  - left. split; [done|]. intros ?. right. right. tauto.
  - right. split; [|done]. apply dec_stable. tauto.
Qed.

Lemma filter_all {A} (P : A → Prop) `{∀ x, Decision (P x)} (l : list A) :
  Forall P l → filter P l = l.
Proof.
  induction 1 as [|x l Hx Hl IH]; [done|].
  by rewrite filter_cons, decide_True, IH.
Qed.

Lemma filter_none {A} (P : A → Prop) `{∀ x, Decision (P x)} (l : list A) :
  Forall (λ x, ¬ P x) l → filter P l = [].
Proof.
  induction 1 as [|x l Hx Hl IH]; [done|].
  by rewrite filter_cons, decide_False, IH.
Qed.

Lemma filter_split_Permutation {A} (P : A → Prop) `{∀ x, Decision (P x)} (l : list A) :
  filter (λ x, ¬ P x) l ++ filter P l ≡ₚ l.
Proof.
  induction l as [|x l IH]; [done|]. rewrite !filter_cons.
  destruct (decide (P x)) as [Hx|Hx].
  - rewrite decide_False by tauto. rewrite <- Permutation_middle. by f_equiv.
  - rewrite decide_True by done. simpl. by f_equiv.
Qed.

Lemma reorderMessage_idem msg : reorderMessage (reorderMessage msg) = reorderMessage msg.
Proof.
  destruct (reorderMessage_cases msg) as [[Heq _]|(Hrole & Htool & Hother & Heq)].
  - by rewrite !Heq.
  - rewrite Heq. unfold reorderMessage at 1. simpl. rewrite separate_filter.
    rewrite !filter_app.
    rewrite (filter_none (λ b, Content_Type b = ContentTypeToolUse)
               (filter (λ b, Content_Type b ≠ ContentTypeToolUse) (Message_Content msg)))
      by (apply Forall_forall; intros b Hb; by apply list_elem_of_filter in Hb as [? _]).
    rewrite (filter_all (λ b, Content_Type b = ContentTypeToolUse)
               (filter (λ b, Content_Type b = ContentTypeToolUse) (Message_Content msg)))
      by (apply Forall_forall; intros b Hb; by apply list_elem_of_filter in Hb as [? _]).
    rewrite (filter_all (λ b, Content_Type b ≠ ContentTypeToolUse)
               (filter (λ b, Content_Type b ≠ ContentTypeToolUse) (Message_Content msg)))
      by (apply Forall_forall; intros b Hb; by apply list_elem_of_filter in Hb as [? _]).
    rewrite (filter_none (λ b, Content_Type b ≠ ContentTypeToolUse)
               (filter (λ b, Content_Type b = ContentTypeToolUse) (Message_Content msg)))
      by (apply Forall_forall; intros b Hb; apply list_elem_of_filter in Hb as [? _]; tauto).
    rewrite app_nil_r. simpl.
    repeat case_decide; try done.
Qed.

Lemma reorderMessage_tools_last msg j k b1 b2 :
  Message_Role msg = Assistant →
  Message_Content (reorderMessage msg) !! j = Some b1 →
  Message_Content (reorderMessage msg) !! k = Some b2 →
  Content_Type b1 = ContentTypeToolUse → Content_Type b2 ≠ ContentTypeToolUse →
  (k < j)%nat.
Proof.
  intros Hrole Hj Hk Hb1 Hb2.
  destruct (reorderMessage_cases msg) as [[Heq Hwhy]|(_ & Htool & Hother & Heq)].
  - rewrite Heq in Hj, Hk. exfalso.
    apply list_elem_of_lookup_2 in Hj as Hin1. apply list_elem_of_lookup_2 in Hk as Hin2.
    destruct (Hwhy Hrole) as [Hnone|[Hnone|Hshort]].
    + assert (b1 ∈ filter (λ b, Content_Type b = ContentTypeToolUse) (Message_Content msg))
        as Hin by by apply list_elem_of_filter.
      rewrite Hnone in Hin. by apply elem_of_nil in Hin.
    + assert (b2 ∈ filter (λ b, Content_Type b ≠ ContentTypeToolUse) (Message_Content msg))
        as Hin by by apply list_elem_of_filter.
      rewrite Hnone in Hin. by apply elem_of_nil in Hin.
    + apply lookup_lt_Some in Hj as Hlj. apply lookup_lt_Some in Hk as Hlk.
      assert (j = k) as -> by lia. congruence.
  - rewrite Heq in Hj, Hk. simpl in Hj, Hk.
    apply lookup_app_Some in Hj as [Hj|[Hlen Hj]].
    + apply list_elem_of_lookup_2, list_elem_of_filter in Hj as [? _]. done.
    + apply lookup_app_Some in Hk as [Hk|[_ Hk]].
      * apply lookup_lt_Some in Hk. lia.
      * apply list_elem_of_lookup_2, list_elem_of_filter in Hk as [? _]. done.
Qed.

(** X20.  [reorderMessageContent] is idempotent.  Each message keeps its
    blocks up to their order.  Afterwards, in every assistant message, no
    tool-use block stands before a block of another type. *)
Theorem reorderMessageContent_tools_last (messages : list Message) :
  reorderMessageContent (reorderMessageContent messages) = reorderMessageContent messages ∧
  ∀ i msg', reorderMessageContent messages !! i = Some msg' →
    (∃ msg, messages !! i = Some msg ∧ Message_Content msg' ≡ₚ Message_Content msg) ∧
    (Message_Role msg' = Assistant →
     ∀ j k b1 b2,
       Message_Content msg' !! j = Some b1 → Message_Content msg' !! k = Some b2 →
       Content_Type b1 = ContentTypeToolUse → Content_Type b2 ≠ ContentTypeToolUse →
       (k < j)%nat).
Proof.
  unfold reorderMessageContent. split.
  - rewrite <- list_fmap_compose. apply list_fmap_ext. intros i msg _. simpl.
    apply reorderMessage_idem.
  - intros i msg' Hi. rewrite list_lookup_fmap in Hi.
    destruct (messages !! i) as [msg|] eqn:Hmsg; [|done]. simpl in Hi.
    injection Hi as <-. split.
    + exists msg. split; [done|].
      destruct (reorderMessage_cases msg) as [[Heq _]|(_ & _ & _ & Heq)];
        rewrite Heq; [done|]. simpl.
      apply (filter_split_Permutation (λ b, Content_Type b = ContentTypeToolUse)).
    + intros Hrole j k b1 b2. apply reorderMessage_tools_last.
      destruct (reorderMessage_cases msg) as [[Heq _]|(? & _)]; [|done].
      by rewrite Heq in Hrole.
Qed.

Lemma reorderMessageContent_tools_last_witness :
  reorderMessageContent (reorderMessageContent sample_messages) =
    reorderMessageContent sample_messages.
Proof. exact (proj1 (reorderMessageContent_tools_last sample_messages)). Defined.

(** * [convertMessages] *)

Lemma firstEmpty_spec messages : ∀ i0,
  match firstEmpty i0 messages with
  | Some i =>
      ∃ k message, i = (i0 + k)%nat ∧ messages !! k = Some message ∧
        Message_Content message = [] ∧
        ∀ j message', (j < k)%nat → messages !! j = Some message' →
          Message_Content message' ≠ []
  | None => Forall (λ message, Message_Content message ≠ []) messages
  end.
Proof.
  induction messages as [|message rest IH]; intros i0; simpl; [done|].
  case_decide as Hlen.
  - exists 0%nat, message. split; [lia|]. split; [done|].
    split; [by apply length_zero_iff_nil|]. intros; lia.
  - specialize (IH (S i0)). destruct (firstEmpty (S i0) rest) as [i|].
    + destruct IH as (k & m & -> & Hk & Hm & Hbefore).
      exists (S k), m. split; [lia|]. split; [done|]. split; [done|].
      intros [|j] message' Hj Hlook; simpl in Hlook.
      * injection Hlook as <-. intros Heq. by rewrite Heq in Hlen.
      * apply (Hbefore j); [lia|done].
    + constructor; [|done]. intros Heq. by rewrite Heq in Hlen.
Qed.

(** X21.  [convertMessages] fails on an empty slice with "no messages
    provided", and on a slice with a message without content with "empty
    message detected (index i)", where i is the index of the first such
    message.  It fails in no other case, and when it fails the caller's
    messages are as they were: nothing has been reordered. *)
Theorem convertMessages_rejects (fileDocument : string → option string)
    (messages : list Message) :
  convertMessages fileDocument [] = ([], inr "no messages provided") ∧
  (∀ i message,
     messages !! i = Some message → Message_Content message = [] →
     (∀ j message', (j < i)%nat → messages !! j = Some message' →
        Message_Content message' ≠ []) →
     convertMessages fileDocument messages =
       (messages, inr ("empty message detected (index " +:+ pretty i +:+ ")"))) ∧
  (∀ messages' err,
     convertMessages fileDocument messages = (messages', inr err) →
     messages' = messages ∧
     (messages = [] ∨ ∃ message, message ∈ messages ∧ Message_Content message = [])).
Proof.
  split; [done|]. unfold convertMessages.
  pose proof (firstEmpty_spec messages 0) as Hfirst. split.
  - intros i message Hi Hempty Hbefore.
    rewrite decide_False
      by (intros Hlen; apply length_zero_iff_nil in Hlen; by rewrite Hlen in Hi).
    destruct (firstEmpty 0 messages) as [i'|].
    + destruct Hfirst as (k & m & -> & Hk & Hm & Hfirst). simpl.
      destruct (lt_eq_lt_dec i k) as [[Hlt| ->]|Hgt]; [|done|].
      * by destruct (Hfirst i message Hlt Hi).
      * by destruct (Hbefore k m Hgt Hk).
    + rewrite Forall_forall in Hfirst. destruct (Hfirst message); [|done].
      by apply list_elem_of_lookup_2 in Hi.
  - intros messages' err. case_decide as Hlen.
    + intros [= <- <-]. split; [done|]. left. by apply length_zero_iff_nil.
    + destruct (firstEmpty 0 messages) as [i|]; [|done].
      destruct Hfirst as (k & m & _ & Hk & Hm & _).
      intros [= <- <-]. split; [done|]. right. exists m. split; [|done].
      by apply list_elem_of_lookup_2 in Hk.
Qed.

Lemma convertMessages_rejects_witness :
  convertMessages sample_fileDocument [sample_mixed_message; mkMessage "m1" User []] =
    ([sample_mixed_message; mkMessage "m1" User []],
     inr "empty message detected (index 1)").
Proof.
  destruct (convertMessages_rejects sample_fileDocument
              [sample_mixed_message; mkMessage "m1" User []]) as (_ & Hempty & _).
  apply (Hempty 1%nat (mkMessage "m1" User [])); [reflexivity | reflexivity |].
  intros [|j] message' Hj Hlook; [|lia].
  injection Hlook as <-. discriminate.
Defined.

Lemma copyContent_Type fileDocument content :
  Content_Type (copyContent fileDocument content) = Content_Type content.
Proof.
  destruct content as [| | | |[] json]; try done. simpl.
  by destruct (fileDocument json).
Qed.

Lemma copyContent_not_document fileDocument content :
  Content_Type content ≠ ContentTypeDocument → copyContent fileDocument content = content.
Proof. destruct content as [| | | |[] json]; done. Qed.

Lemma texts_copyContent fileDocument content :
  texts (copyContent fileDocument <$> content) = texts content.
Proof.
  induction content as [|b content IH]; [done|].
  rewrite fmap_cons, !texts_cons, IH.
  destruct b as [| | | |[] json]; try done. simpl. by destruct (fileDocument json).
Qed.

(** X22.  On a non-empty slice of messages that all have content,
    [convertMessages] succeeds.  The caller's messages are left reordered.
    The copies are as many; each has no identifier, the role of its message
    and, block by block, the reordered content of its message: every block of
    a type other than document is the same, a document keeps its type.  The
    text of a copy is the text of its message. *)
Theorem convertMessages_copies (fileDocument : string → option string)
    (messages : list Message)
    (Hsome : messages ≠ [])
    (Hcontent : ∀ message, message ∈ messages → Message_Content message ≠ []) :
  ∃ copied,
    convertMessages fileDocument messages = (reorderMessageContent messages, inl copied) ∧
    length copied = length messages ∧
    ∀ i message, messages !! i = Some message →
      ∃ copy, copied !! i = Some copy ∧
        Message_ID copy = "" ∧
        Message_Role copy = Message_Role message ∧
        length (Message_Content copy) = length (Message_Content message) ∧
        Message_Text copy = Message_Text message ∧
        ∀ k block, Message_Content (reorderMessage message) !! k = Some block →
          ∃ block', Message_Content copy !! k = Some block' ∧
            Content_Type block' = Content_Type block ∧
            (Content_Type block ≠ ContentTypeDocument → block' = block).
Proof.
  unfold convertMessages.
  rewrite decide_False by (by intros ?%length_zero_iff_nil).
  pose proof (firstEmpty_spec messages 0) as Hfirst.
  destruct (firstEmpty 0 messages) as [i|].
  { destruct Hfirst as (k & m & _ & Hk & Hm & _).
    by destruct (Hcontent m (list_elem_of_lookup_2 _ _ _ Hk)). }
  eexists. split; [done|]. unfold reorderMessageContent.
  split; [by rewrite !length_fmap|].
  intros i message Hi. rewrite !list_lookup_fmap, Hi. simpl.
  eexists. split; [done|]. simpl.
  destruct (reorderMessage_spec message) as (_ & Hrole & _).
  split; [done|]. split; [done|]. split.
  { rewrite length_fmap.
    destruct (reorderMessage_cases message) as [[-> _]|(_ & _ & _ & ->)]; [done|].
    simpl. by rewrite (filter_split_Permutation
                         (λ b, Content_Type b = ContentTypeToolUse) (Message_Content message)). }
  split.
  { rewrite Message_Text_texts. simpl. rewrite texts_copyContent.
    rewrite <- Message_Text_texts.
    destruct (reorderMessage_cases message) as [[-> _]|(_ & _ & _ & ->)]; [done|].
    rewrite !Message_Text_texts. simpl.
    by destruct (filter_tool_use_split (Message_Content message)) as [-> _]. }
  intros k block Hk. rewrite list_lookup_fmap, Hk. simpl.
  eexists. split; [done|]. split; [apply copyContent_Type|].
  apply copyContent_not_document.
Qed.

Lemma convertMessages_copies_witness :
  ∃ copied,
    convertMessages sample_fileDocument sample_conversation =
      (reorderMessageContent sample_conversation, inl copied) ∧
    copied !! 1%nat =
      Some (mkMessage "" Assistant
              [sample_text "Here is the result:";
               Thinking (mkThinkingContent "" "hmm" "sig");
               sample_text "Additional text"; sample_tool "tool1"; sample_tool "tool2"]).
Proof.
  destruct (convertMessages_copies sample_fileDocument sample_conversation)
    as (copied & Heq & _ & _).
  - done.
  - intros message Hin. unfold sample_conversation in Hin.
    repeat (apply elem_of_cons in Hin as [->|Hin]; [done|]).
    by apply elem_of_nil in Hin.
  - exists copied. split; [exact Heq|].
    vm_compute in Heq. injection Heq as <-. reflexivity.
Defined.
